(** * Rumble Pit: combat resolution, pit tick and clan battles of [server.js]

    A shallow embedding of the game server's resolution code. Session
    objects live in the [players] Map of the server, keyed by socket id; a
    reference to a session object is modelled by its key, and the Map by the
    list of its values in insertion order (the order in which JavaScript
    iterates a Map). The revenge ledger and the bonus table are only ever
    read and written by key and are finite maps. Calls to the persistence
    store act on an explicit table, present only when the server is
    configured with a database. The other handlers of a connection and the
    defend timer are embedded as well, and the server as a state machine
    over the events it receives, each handler running to its end before the
    next event is taken. *)

From stdpp Require Import base decidable option list gmap strings.
From Stdlib Require Import ZArith QArith Qround Lia Sorting.Sorted.

Open Scope Z_scope.

(** ** Data model *)

(** [action] of a session: ['defend'], ['attack'] or [null]. *)
Inductive Action := Defend | Attack.

(** [attackType] of a session: ['distance'], ['melee'] or [null]. *)
Inductive AttackType := Distance | Melee.

#[global] Instance Action_eq_dec : EqDecision Action.
Proof. solve_decision. Defined.

#[global] Instance AttackType_eq_dec : EqDecision AttackType.
Proof. solve_decision. Defined.

(** The session object stored in [players] (the [playerData] literal of the
    [identify] and [confirmCharacter] handlers). *)
Record Player := {
  id : string;
  odIdentifier : string;
  name : string;
  points : Z;
  playerNumber : Z;
  characterImage : Z;
  clanName : option string;
  dailyRevengeKills : Z;
  dailyMaxStreak : Z;
  challengeRevengeClaimed : bool;
  challengeStreakClaimed : bool;
  streak : Z;
  inPit : bool;
  action : option Action;
  actionTarget : option string;
  actionTime : option Z;
  attackType : option AttackType;
  canHeckle : bool
}.

(** A value of [revengeTargets]: whom to avenge against, and until when. *)
Record Revenge := {
  revengeOn : string;
  expiresAt : Z
}.

(** The [{ id, name }] literal put in a result for display. *)
Record Brief := {
  briefId : string;
  briefName : string
}.

(** A battle result record. [winner] and [loser] hold references to session
    objects (their keys); the flags after [resAttackType] are the ones the
    tick adds to the record after [determineWinner] built it. *)
Record Result := {
  attacker : Brief;
  defender : Brief;
  winner : option string;
  loser : option string;
  reason : string;
  attackerNumber : Z;
  defenderNumber : Z;
  resAttackType : option AttackType;
  isRevenge : bool;
  captured : bool;
  capturedBy : option string;
  isStreakKill : bool;
  isGangAttack : bool
}.

(** ** JavaScript operators on the values above *)

(** [ToNumber] on a timestamp that may be [null]. *)
Definition toNumber (t : option Z) : Z := default 0 t.

(** [a < b] on two timestamps. *)
Definition js_lt (a b : option Z) : bool := toNumber a <? toNumber b.

(** [target.actionTarget === attacker.id]. *)
Definition targets (t : option string) (k : string) : bool :=
  match t with
  | Some s => bool_decide (s = k)
  | None => false
  end.

(** Truthiness of [player.actionTarget]: [null] and the empty string are falsy. *)
Definition truthy (t : option string) : bool :=
  match t with
  | Some s => negb (bool_decide (s = ""))
  | None => false
  end.

Definition isAttack (a : option Action) : bool := bool_decide (a = Some Attack).

Definition brief (p : Player) : Brief :=
  {| briefId := id p; briefName := name p |}.

(** ** Character creation *)

(** [Math.floor(Math.random() * 100)]. The random source is the argument: a
    number [r] with [0 <= r < 1], taken as a rational, so that the product
    is exact. *)
Definition generatePlayerNumber (r : Q) : Z := Qfloor (r * 100).

(** ** The combat resolver *)

(** The [result] literal at the head of [determineWinner]. *)
Definition newResult (a t : Player) : Result :=
  {| attacker := brief a;
     defender := brief t;
     winner := None;
     loser := None;
     reason := "";
     attackerNumber := playerNumber a;
     defenderNumber := playerNumber t;
     resAttackType := attackType a;
     isRevenge := false;
     captured := false;
     capturedBy := None;
     isStreakKill := false;
     isGangAttack := false |}.

(** [result.winner = w; result.loser = l; result.reason = why]. *)
Definition decide_for (w l : Player) (why : string) (r : Result) : Result :=
  {| attacker := attacker r;
     defender := defender r;
     winner := Some (id w);
     loser := Some (id l);
     reason := why;
     attackerNumber := attackerNumber r;
     defenderNumber := defenderNumber r;
     resAttackType := resAttackType r;
     isRevenge := isRevenge r;
     captured := captured r;
     capturedBy := capturedBy r;
     isStreakKill := isStreakKill r;
     isGangAttack := isGangAttack r |}.

(** [result.attackType = ty]. *)
Definition set_attackType (ty : option AttackType) (r : Result) : Result :=
  {| attacker := attacker r;
     defender := defender r;
     winner := winner r;
     loser := loser r;
     reason := reason r;
     attackerNumber := attackerNumber r;
     defenderNumber := defenderNumber r;
     resAttackType := ty;
     isRevenge := isRevenge r;
     captured := captured r;
     capturedBy := capturedBy r;
     isStreakKill := isStreakKill r;
     isGangAttack := isGangAttack r |}.

Definition determineWinner (a t : Player) : Result :=
  let result := newResult a t in
  if isAttack (action t) && negb (targets (actionTarget t) (id a)) then
    (* Target is attacking someone else - attacker auto-wins *)
    decide_for a t "caught attacking" result
  else if isAttack (action t) && targets (actionTarget t) (id a) then
    (* Mutual attack - both attacking each other *)
    match attackType a, attackType t with
    | Some Distance, Some Melee => decide_for a t "distance beats melee" result
    | Some Melee, Some Distance =>
        set_attackType (attackType t) (decide_for t a "distance beats melee" result)
    | _, _ =>
        (* Same attack type - first click wins *)
        if js_lt (actionTime a) (actionTime t)
        then decide_for a t "faster draw" result
        else decide_for t a "faster draw" result
    end
  else
    (* Target is defending or idle - compare numbers based on attack type *)
    if bool_decide (attackType a = Some Distance) then
      if playerNumber a >=? playerNumber t then
        decide_for a t
          (if playerNumber a =? playerNumber t then "tie - attacker wins" else "higher number")
          result
      else decide_for t a "higher number" result
    else
      if playerNumber a <=? playerNumber t then
        decide_for a t
          (if playerNumber a =? playerNumber t then "tie - attacker wins" else "lower number")
          result
      else decide_for t a "lower number" result.

(** Both sides attack each other: seen from [determineWinner a t], the target
    [t] has a pending attack aimed at [a]. *)
Definition mutual (a t : Player) : Prop :=
  action t = Some Attack ∧ actionTarget t = Some (id a).

(** The target is defending or idle. *)
Definition passive (t : Player) : Prop :=
  action t = Some Defend ∨ action t = None.

(** ** The persistence store *)

(** A row of the [players] table (the columns the resolution code touches). *)
Record Row := {
  od_identifier : string;
  row_name : string;
  player_number : Z;
  character_image : Z;
  row_points : Z;
  clan_name : option string;
  owner_id : option string;
  daily_revenge_kills : Z;
  daily_max_streak : Z
}.

Definition set_row_points (v : Z) (r : Row) : Row :=
  {| od_identifier := od_identifier r; row_name := row_name r;
     player_number := player_number r; character_image := character_image r;
     row_points := v; clan_name := clan_name r; owner_id := owner_id r;
     daily_revenge_kills := daily_revenge_kills r;
     daily_max_streak := daily_max_streak r |}.

Definition set_row_owner (clan owner : option string) (r : Row) : Row :=
  {| od_identifier := od_identifier r; row_name := row_name r;
     player_number := player_number r; character_image := character_image r;
     row_points := row_points r; clan_name := clan; owner_id := owner;
     daily_revenge_kills := daily_revenge_kills r;
     daily_max_streak := daily_max_streak r |}.

Definition set_row_daily (kills strk : Z) (r : Row) : Row :=
  {| od_identifier := od_identifier r; row_name := row_name r;
     player_number := player_number r; character_image := character_image r;
     row_points := row_points r; clan_name := clan_name r; owner_id := owner_id r;
     daily_revenge_kills := Z.max (daily_revenge_kills r) kills;
     daily_max_streak := Z.max (daily_max_streak r) strk |}.

(** [UPDATE players SET ... WHERE od_identifier = k]. *)
Definition update_where (k : string) (f : Row → Row) (t : list Row) : list Row :=
  map (λ r, if bool_decide (od_identifier r = k) then f r else r) t.

(** The rows an [UPDATE ... WHERE od_identifier = k RETURNING ...] returns. *)
Definition returning (k : string) (t : list Row) : list Row :=
  filter (λ r, od_identifier r = k) t.

(** The store is [None] when [process.env.DATABASE_URL] is not set: every
    store function then returns before its query. Queries are taken to
    succeed. *)
Definition updatePlayerPoints (k : string) (v : Z) (db : option (list Row))
  : option (list Row) :=
  update_where k (set_row_points v) <$> db.

Definition captureCharacter (capturedId : string) (newClanName newOwnerId : option string)
    (db : option (list Row)) : option (list Row) * bool :=
  match db with
  | None => (None, false)
  | Some t => (Some (update_where capturedId (set_row_owner newClanName newOwnerId) t), true)
  end.

Definition updateDailyChallenge (k : string) (revengeKills maxStreak : Z)
    (db : option (list Row)) : option (list Row) :=
  update_where k (set_row_daily revengeKills maxStreak) <$> db.

(** ** The pit tick: [processAllAttacks] *)

(** [players.get(k)]. *)
Definition players_get (k : string) (ps : list Player) : option Player :=
  find (λ p, bool_decide (id p = k)) ps.

(** A mutation of the first element of a list that satisfies [P]: the object
    a [find] returned. *)
Fixpoint alter_first {A} (P : A → bool) (f : A → A) (l : list A) : list A :=
  match l with
  | [] => []
  | x :: l' => if P x then f x :: l' else x :: alter_first P f l'
  end.

(** A mutation of the session object [players.get(k)]. *)
Definition players_alter (k : string) (f : Player → Player) (ps : list Player)
  : list Player :=
  alter_first (λ p, bool_decide (id p = k)) f ps.

(** [set.add(k)] on a JavaScript Set, which iterates in insertion order. *)
Definition set_add (k : string) (s : list string) : list string :=
  if bool_decide (k ∈ s) then s else s ++ [k].

(** The filter of the grouping loop. *)
Definition attacking (p : Player) : bool :=
  inPit p && isAttack (action p) && truthy (actionTarget p).

(** [attacksByTarget.get(k).push(p)], creating the entry when it is missing. *)
Fixpoint group_push (k : string) (p : Player) (g : list (string * list Player))
  : list (string * list Player) :=
  match g with
  | [] => [(k, [p])]
  | (k', l) :: g' =>
      if bool_decide (k' = k) then (k', l ++ [p]) :: g'
      else (k', l) :: group_push k p g'
  end.

Definition group_player (g : list (string * list Player)) (p : Player)
  : list (string * list Player) :=
  if attacking p then
    match actionTarget p with
    | Some k => group_push k p g
    | None => g
    end
  else g.

Definition attacksByTarget (ps : list Player) : list (string * list Player) :=
  fold_left group_player ps [].

(** What the resolution loop accumulates. *)
Record Tick := {
  results : list Result;
  losers : list string;
  winners : list string;
  winnerBonuses : gmap string Z;
  revengeTargets : gmap string Revenge
}.

(** [myRevenge && myRevenge.odIdentifier === target.odIdentifier &&
    myRevenge.expiresAt > now], as a truth value. *)
Definition holdsRevenge (now : Z) (rv : gmap string Revenge) (a t : Player) : bool :=
  match rv !! odIdentifier a with
  | Some r => bool_decide (revengeOn r = odIdentifier t) && (expiresAt r >? now)
  | None => false
  end.

Definition set_isRevenge (b : bool) (r : Result) : Result :=
  {| attacker := attacker r; defender := defender r; winner := winner r;
     loser := loser r; reason := reason r; attackerNumber := attackerNumber r;
     defenderNumber := defenderNumber r; resAttackType := resAttackType r;
     isRevenge := b; captured := captured r; capturedBy := capturedBy r;
     isStreakKill := isStreakKill r; isGangAttack := isGangAttack r |}.

(** The record pushed for one attacker of a gang attack. *)
Definition gangResult (a t : Player) (isRev : bool) : Result :=
  {| attacker := brief a;
     defender := brief t;
     winner := Some (id a);
     loser := Some (id t);
     reason := "gang attack";
     attackerNumber := playerNumber a;
     defenderNumber := playerNumber t;
     resAttackType := attackType a;
     isRevenge := isRev;
     captured := false;
     capturedBy := None;
     isStreakKill := false;
     isGangAttack := false |}.

(** [winnerBonuses.set(k, (winnerBonuses.get(k) || 0) + 2)] and
    [revengeTargets.delete(od)], done when the revenge claim holds. *)
Definition claimRevenge (isRev : bool) (a : Player) (tk : Tick)
  : gmap string Z * gmap string Revenge :=
  if isRev then
    (<[id a := default 0 (winnerBonuses tk !! id a) + 2]> (winnerBonuses tk),
     delete (odIdentifier a) (revengeTargets tk))
  else (winnerBonuses tk, revengeTargets tk).

(** The body of the loop over the attackers of a gang attack. *)
Definition gangStep (now : Z) (t : Player) (tk : Tick) (a : Player) : Tick :=
  let isRev := holdsRevenge now (revengeTargets tk) a t in
  let claimed := claimRevenge isRev a tk in
  {| results := results tk ++ [gangResult a t isRev];
     losers := losers tk;
     winners := set_add (id a) (winners tk);
     winnerBonuses := claimed.1;
     revengeTargets := claimed.2 |}.

(** The branch for a target with a single attacker. *)
Definition duelStep (now : Z) (t : Player) (tk : Tick) (a : Player) : Tick :=
  if bool_decide (id a ∈ losers tk) then tk
  else
    let result := determineWinner a t in
    let won := bool_decide (winner result = Some (id a)) in
    let isRev := won && holdsRevenge now (revengeTargets tk) a t in
    let claimed := claimRevenge isRev a tk in
    {| results := results tk ++ [if won then set_isRevenge isRev result else result];
       losers := from_option (λ l, set_add l (losers tk)) (losers tk) (loser result);
       winners := from_option (λ w, set_add w (winners tk)) (winners tk) (winner result);
       winnerBonuses := claimed.1;
       revengeTargets := claimed.2 |}.

Definition add_loser (k : string) (tk : Tick) : Tick :=
  {| results := results tk;
     losers := set_add k (losers tk);
     winners := winners tk;
     winnerBonuses := winnerBonuses tk;
     revengeTargets := revengeTargets tk |}.

(** The body of [for (const [targetId, attackers] of attacksByTarget)]. A
    group is created by its first [push] and is never empty; on an empty
    one [attackers[0].id] would throw, and the model leaves the tick as it is. *)
Definition processGroup (now : Z) (ps : list Player) (tk : Tick)
    (g : string * list Player) : Tick :=
  match players_get g.1 ps with
  | None => tk
  | Some t =>
      if negb (inPit t) then tk
      else if (1 <? length g.2)%nat then
        fold_left (gangStep now t) g.2 (add_loser g.1 tk)
      else
        match g.2 with
        | a :: _ => duelStep now t tk a
        | [] => tk
        end
  end.

Definition newTick (rv : gmap string Revenge) : Tick :=
  {| results := []; losers := []; winners := []; winnerBonuses := ∅;
     revengeTargets := rv |}.

(** The resolution loop over all groups. *)
Definition resolve (now : Z) (ps : list Player) (rv : gmap string Revenge) : Tick :=
  fold_left (processGroup now ps) (attacksByTarget ps) (newTick rv).

(** The server state the tick works on, with the result list being built. *)
Record Pit := {
  players : list Player;
  revenge : gmap string Revenge;
  store : option (list Row);
  battle : list Result
}.

Definition lostBy (k : string) (r : Result) : bool :=
  bool_decide (loser r = Some k).

Definition wonBy (k : string) (r : Result) : bool :=
  bool_decide (winner r = Some k).

(** The mutations of the loser's session object. *)
Definition defeat (pts : Z) (clan : option string) (p : Player) : Player :=
  {| id := id p; odIdentifier := odIdentifier p; name := name p;
     points := pts; playerNumber := playerNumber p;
     characterImage := characterImage p; clanName := clan;
     dailyRevengeKills := dailyRevengeKills p; dailyMaxStreak := dailyMaxStreak p;
     challengeRevengeClaimed := challengeRevengeClaimed p;
     challengeStreakClaimed := challengeStreakClaimed p;
     streak := 0; inPit := false; action := None; actionTarget := None;
     actionTime := None; attackType := None; canHeckle := canHeckle p |}.

Definition mark_captured (by_name : string) (r : Result) : Result :=
  {| attacker := attacker r; defender := defender r; winner := winner r;
     loser := loser r; reason := reason r; attackerNumber := attackerNumber r;
     defenderNumber := defenderNumber r; resAttackType := resAttackType r;
     isRevenge := isRevenge r; captured := true; capturedBy := Some by_name;
     isStreakKill := isStreakKill r; isGangAttack := isGangAttack r |}.

(** The body of [for (const loserId of losers)]. *)
Definition loserStep (now : Z) (st : Pit) (loserId : string) : Pit :=
  match players_get loserId (players st) with
  | None => st
  | Some l =>
      let winnerPlayer :=
        w ← find (lostBy loserId) (battle st) ≫= winner; players_get w (players st) in
      let rv :=
        match winnerPlayer with
        | Some wp =>
            <[odIdentifier l :=
                {| revengeOn := odIdentifier wp; expiresAt := now + 3 * 60 * 1000 |}]>
              (revenge st)
        | None => revenge st
        end in
      let pts := Z.max 0 (points l - 1) in
      let db := updatePlayerPoints (odIdentifier l) pts (store st) in
      match winnerPlayer with
      | Some wp =>
          if pts =? 0 then
            {| players := players_alter loserId (defeat pts (clanName wp)) (players st);
               revenge := rv;
               store := (captureCharacter (odIdentifier l) (clanName wp)
                           (Some (odIdentifier wp)) db).1;
               battle := alter_first (lostBy loserId) (mark_captured (name wp)) (battle st) |}
          else
            {| players := players_alter loserId (defeat pts (clanName l)) (players st);
               revenge := rv; store := db; battle := battle st |}
      | None =>
          {| players := players_alter loserId (defeat pts (clanName l)) (players st);
             revenge := rv; store := db; battle := battle st |}
      end
  end.

(** The mutations of the winner's session object. *)
Definition reward (bonus : Z) (p : Player) : Player :=
  let strk := streak p + 1 in
  {| id := id p; odIdentifier := odIdentifier p; name := name p;
     points := points p + (1 + bonus); playerNumber := playerNumber p;
     characterImage := characterImage p; clanName := clanName p;
     dailyRevengeKills :=
       if bonus >? 0 then dailyRevengeKills p + 1 else dailyRevengeKills p;
     dailyMaxStreak := if strk >? dailyMaxStreak p then strk else dailyMaxStreak p;
     challengeRevengeClaimed := challengeRevengeClaimed p;
     challengeStreakClaimed := challengeStreakClaimed p;
     streak := strk; inPit := inPit p; action := None; actionTarget := None;
     actionTime := None; attackType := None; canHeckle := true |}.

Definition mark_sounds (strk : Z) (r : Result) : Result :=
  {| attacker := attacker r; defender := defender r; winner := winner r;
     loser := loser r; reason := reason r; attackerNumber := attackerNumber r;
     defenderNumber := defenderNumber r; resAttackType := resAttackType r;
     isRevenge := isRevenge r; captured := captured r; capturedBy := capturedBy r;
     isStreakKill := strk >=? 5;
     isGangAttack := bool_decide (reason r = "gang attack") |}.

(** The body of [for (const winnerId of winners)]. *)
Definition winnerStep (tk : Tick) (st : Pit) (winnerId : string) : Pit :=
  match players_get winnerId (players st) with
  | None => st
  | Some w =>
      if bool_decide (winnerId ∈ losers tk) then st
      else
        let bonus := default 0 (winnerBonuses tk !! winnerId) in
        let w' := reward bonus w in
        {| players := players_alter winnerId (reward bonus) (players st);
           revenge := revenge st;
           store :=
             updatePlayerPoints (odIdentifier w) (points w')
               (updateDailyChallenge (odIdentifier w) (dailyRevengeKills w')
                  (dailyMaxStreak w') (store st));
           battle := alter_first (wonBy winnerId) (mark_sounds (streak w')) (battle st) |}
  end.

(** [processAllAttacks()] at time [now]: the state it leaves, whose [battle]
    field is the list it returns. *)
Definition processAllAttacks (now : Z) (st : Pit) : Pit :=
  let tk := resolve now (players st) (revenge st) in
  let st1 :=
    fold_left (loserStep now) (losers tk)
      {| players := players st; revenge := revengeTargets tk;
         store := store st; battle := results tk |} in
  fold_left (winnerStep tk) (winners tk) st1.

(** ** What clients are sent *)

(** A row of [getLeaderboard()]. *)
Record LeaderboardEntry := {
  lbId : string;
  lbOdIdentifier : string;
  lbName : string;
  lbPoints : Z;
  lbStreak : Z;
  lbInPit : bool;
  lbCharacterImage : Z;
  lbClanName : option string
}.

(** A row of [getPitPlayers(requestingPlayerId)]. *)
Record PitEntry := {
  pitId : string;
  pitOdIdentifier : string;
  pitName : string;
  pitPoints : Z;
  pitStreak : Z;
  pitCharacterImage : Z;
  pitAction : string;
  pitIsRevenge : bool
}.

(** A result record as the transport serialises it: [winner] and [loser] are
    references to session objects, which are written out in full. *)
Record ResultWire := {
  shown : Result;
  winnerObject : option Player;
  loserObject : option Player
}.

(** [array.sort((a, b) => b.points - a.points)]: a stable sort, most points
    first. *)
Fixpoint insertByPoints (p : Player) (l : list Player) : list Player :=
  match l with
  | [] => [p]
  | q :: l' => if points p <? points q then q :: insertByPoints p l' else p :: q :: l'
  end.

Definition sortByPoints (ps : list Player) : list Player :=
  foldr insertByPoints [] ps.

Definition leaderboardEntry (p : Player) : LeaderboardEntry :=
  {| lbId := id p; lbOdIdentifier := odIdentifier p; lbName := name p;
     lbPoints := points p; lbStreak := streak p; lbInPit := inPit p;
     lbCharacterImage := characterImage p; lbClanName := clanName p |}.

Definition getLeaderboard (ps : list Player) : list LeaderboardEntry :=
  leaderboardEntry <$> sortByPoints ps.

Definition pitEntry (isMyRevenge : option string) (p : Player) : PitEntry :=
  {| pitId := id p; pitOdIdentifier := odIdentifier p; pitName := name p;
     pitPoints := points p; pitStreak := streak p;
     pitCharacterImage := characterImage p;
     pitAction :=
       match action p with
       | Some Defend => "defending"
       | Some Attack => "attacking"
       | None => "idle"
       end;
     pitIsRevenge := bool_decide (Some (odIdentifier p) = isMyRevenge) |}.

Definition getPitPlayers (now : Z) (rv : gmap string Revenge) (ps : list Player)
    (requestingPlayerId : string) : list PitEntry :=
  let myRevengeTarget :=
    rp ← players_get requestingPlayerId ps; rv !! odIdentifier rp in
  let isMyRevenge :=
    match myRevengeTarget with
    | Some r => if expiresAt r >? now then Some (revengeOn r) else None
    | None => None
    end in
  pitEntry isMyRevenge <$> filter (λ p, inPit p = true) ps.

Definition wire (ps : list Player) (r : Result) : ResultWire :=
  {| shown := r;
     winnerObject := winner r ≫= λ k, players_get k ps;
     loserObject := loser r ≫= λ k, players_get k ps |}.

(** The batch [io.emit('battleResults', results)] sends. *)
Definition battleResults (st : Pit) : list ResultWire :=
  wire (players st) <$> battle st.

Definition declare_attack (targetId : string) (ty : AttackType) (now : Z) (p : Player)
  : Player :=
  {| id := id p; odIdentifier := odIdentifier p; name := name p;
     points := points p; playerNumber := playerNumber p;
     characterImage := characterImage p; clanName := clanName p;
     dailyRevengeKills := dailyRevengeKills p; dailyMaxStreak := dailyMaxStreak p;
     challengeRevengeClaimed := challengeRevengeClaimed p;
     challengeStreakClaimed := challengeStreakClaimed p;
     streak := streak p; inPit := inPit p; action := Some Attack;
     actionTarget := Some targetId; actionTime := Some now;
     attackType := Some ty; canHeckle := canHeckle p |}.

(** What the [attack] handler sends besides the state snapshot. *)
Inductive Emitted :=
  | ErrorMessage (message : string)
  | BattleResults (batch : list ResultWire)
  | Nothing.

(** The [attack] handler of socket [socketId]; [ty] is [None] for a value
    that is neither ['distance'] nor ['melee']. *)
Definition onAttack (now : Z) (socketId targetId : string) (ty : option AttackType)
    (st : Pit) : Pit * Emitted :=
  match players_get socketId (players st) with
  | None => (st, ErrorMessage "You are not in the pit")
  | Some p =>
      if negb (inPit p) then (st, ErrorMessage "You are not in the pit")
      else
        match players_get targetId (players st) with
        | None => (st, ErrorMessage "Invalid target")
        | Some t =>
            if negb (inPit t) then (st, ErrorMessage "Invalid target")
            else if bool_decide (targetId = socketId)
            then (st, ErrorMessage "Cannot attack yourself")
            else
              match ty with
              | None => (st, ErrorMessage "Invalid attack type")
              | Some ty =>
                  let st' :=
                    processAllAttacks now
                      {| players :=
                           players_alter socketId (declare_attack targetId ty now)
                             (players st);
                         revenge := revenge st; store := store st; battle := [] |} in
                  (st', if (0 <? length (battle st'))%nat
                        then BattleResults (battleResults st') else Nothing)
              end
        end
  end.

(** Two registries that differ at most in the draw numbers of their sessions. *)
Definition blind (p : Player) : Player :=
  {| id := id p; odIdentifier := odIdentifier p; name := name p;
     points := points p; playerNumber := 0;
     characterImage := characterImage p; clanName := clanName p;
     dailyRevengeKills := dailyRevengeKills p; dailyMaxStreak := dailyMaxStreak p;
     challengeRevengeClaimed := challengeRevengeClaimed p;
     challengeStreakClaimed := challengeStreakClaimed p;
     streak := streak p; inPit := inPit p; action := action p;
     actionTarget := actionTarget p; actionTime := actionTime p;
     attackType := attackType p; canHeckle := canHeckle p |}.

Definition same_but_numbers (ps qs : list Player) : Prop :=
  blind <$> ps = blind <$> qs.

(** A view of the registry shows no draw number when it cannot tell two such
    registries apart. *)
Definition hides_numbers {A} (view : list Player → A) : Prop :=
  ∀ ps qs, same_but_numbers ps qs → view ps = view qs.

(** ** Clan battles *)

(** An element of [getClanMembers(clan)]: the snapshot of a roster member. *)
Record Member := {
  m_od_identifier : string;
  m_name : string;
  m_points : Z;
  m_character_image : Z;
  m_player_number : Z
}.

(** The [{ id, name, number, characterImage }] literal of a round result. *)
Record Fighter := {
  fighterId : string;
  fighterName : string;
  number : Z;
  fighterImage : Z
}.

(** An element of the [results] of a round. *)
Record Duel := {
  fighterA : Fighter;
  fighterB : Fighter;
  duelWinner : Brief;
  duelLoser : Brief;
  duelAttackType : AttackType
}.

(** The random choices of one round: the two shuffles
    [[...members].sort(() => Math.random() - 0.5)] and the value of
    [Math.random()] at each coin flip. *)
Record Draw := {
  shuffleA : list Member → list Member;
  shuffleB : list Member → list Member;
  coin : nat → Q
}.

(** A sort returns the elements it was given, in some order. *)
Definition shuffles (d : Draw) : Prop :=
  (∀ l, shuffleA d l ≡ₚ l) ∧ (∀ l, shuffleB d l ≡ₚ l).

(** [Math.random() < 0.5 ? 'distance' : 'melee']. *)
Definition coinFlip (r : Q) : AttackType :=
  if Qle_bool (1 # 2) r then Melee else Distance.

Definition fighter (m : Member) : Fighter :=
  {| fighterId := m_od_identifier m; fighterName := m_name m;
     number := m_player_number m; fighterImage := m_character_image m |}.

Definition member_brief (m : Member) : Brief :=
  {| briefId := m_od_identifier m; briefName := m_name m |}.

(** The body of the loop of [executeClanBattleRound]. *)
Definition duel (ty : AttackType) (fa fb : Member) : Duel :=
  let aWins :=
    match ty with
    | Distance => m_player_number fa >=? m_player_number fb
    | Melee => m_player_number fa <=? m_player_number fb
    end in
  {| fighterA := fighter fa;
     fighterB := fighter fb;
     duelWinner := member_brief (if aWins then fa else fb);
     duelLoser := member_brief (if aWins then fb else fa);
     duelAttackType := ty |}.

(** What [executeClanBattleRound] returns. *)
Record Round := {
  roundResults : list Duel;
  unbattledA : list Member;
  unbattledB : list Member
}.

Definition executeClanBattleRound (d : Draw) (clanAMembers clanBMembers : list Member)
  : Round :=
  let minSize := (length clanAMembers `min` length clanBMembers)%nat in
  let shuffledA := shuffleA d clanAMembers in
  let shuffledB := shuffleB d clanBMembers in
  {| roundResults :=
       omap (λ i, fa ← shuffledA !! i; fb ← shuffledB !! i;
                  Some (duel (coinFlip (coin d i)) fa fb))
            (seq 0 minSize);
     unbattledA := drop minSize shuffledA;
     unbattledB := drop minSize shuffledB |}.

(** [pointChanges[k] = (pointChanges[k] || 0) + d] on the object
    [pointChanges], whose entries are kept in insertion order. *)
Fixpoint bump (k : string) (d : Z) (m : list (string * Z)) : list (string * Z) :=
  match m with
  | [] => [(k, 0 + d)]
  | (k', v) :: m' =>
      if bool_decide (k' = k) then (k', v + d) :: m' else (k', v) :: bump k d m'
  end.

(** The [clanBattleRound] event. *)
Record RoundEvent := {
  round : nat;
  eventResults : list Duel;
  roundWinner : string;
  roundScore : nat * nat;
  overallScore : nat * nat
}.

(** The variables of the series loop, and the events sent so far. *)
Record Series := {
  clanAWins : nat;
  clanBWins : nat;
  pointChanges : list (string * Z);
  sent : list RoundEvent
}.

(** What the loop over the results of a round counts. *)
Record Count := {
  roundAWins : nat;
  roundBWins : nat;
  changes : list (string * Z)
}.

Definition tally (clanAMembers : list Member) (c : Count) (result : Duel) : Count :=
  let winnerFromClanA :=
    find (λ m, bool_decide (m_od_identifier m = briefId (duelWinner result)))
         clanAMembers in
  {| roundAWins := if winnerFromClanA is Some _ then S (roundAWins c) else roundAWins c;
     roundBWins := if winnerFromClanA is Some _ then roundBWins c else S (roundBWins c);
     changes :=
       bump (briefId (duelLoser result)) (-1)
         (bump (briefId (duelWinner result)) 1 (changes c)) |}.

(** One turn of the series loop, after its [break] test. *)
Definition playRound (challenger defender : string) (d : Draw)
    (clanAMembers clanBMembers : list Member) (roundNum : nat) (s : Series) : Series :=
  let results := roundResults (executeClanBattleRound d clanAMembers clanBMembers) in
  let c :=
    fold_left (tally clanAMembers) results
      {| roundAWins := 0; roundBWins := 0; changes := pointChanges s |} in
  let a := roundAWins c in
  let b := roundBWins c in
  let aWins := if (b <? a)%nat then S (clanAWins s) else clanAWins s in
  let bWins :=
    if (b <? a)%nat then clanBWins s
    else if (a <? b)%nat then S (clanBWins s) else clanBWins s in
  {| clanAWins := aWins;
     clanBWins := bWins;
     pointChanges := changes c;
     sent :=
       sent s ++
       [{| round := roundNum;
           eventResults := results;
           roundWinner :=
             if (b <? a)%nat then challenger
             else if (a <? b)%nat then defender else "TIE";
           roundScore := (a, b);
           overallScore := (aWins, bWins) |}] |}.

(** [for (roundNum = 1; roundNum <= maxRounds; roundNum++)] over the round
    numbers still to come, with its [break]. *)
Fixpoint seriesLoop (challenger defender : string) (draws : nat → Draw)
    (clanAMembers clanBMembers : list Member) (roundNums : list nat) (s : Series)
  : Series :=
  match roundNums with
  | [] => s
  | roundNum :: rest =>
      if (2 <=? clanAWins s)%nat || (2 <=? clanBWins s)%nat then s
      else
        seriesLoop challenger defender draws clanAMembers clanBMembers rest
          (playRound challenger defender (draws roundNum) clanAMembers clanBMembers
             roundNum s)
  end.

Definition maxRounds : nat := 3.

Definition runSeries (challenger defender : string) (draws : nat → Draw)
    (clanAMembers clanBMembers : list Member) : Series :=
  seriesLoop challenger defender draws clanAMembers clanBMembers (seq 1 maxRounds)
    {| clanAWins := 0; clanBWins := 0; pointChanges := []; sent := [] |}.

(** An element of [pendingCaptures]. *)
Record Capture := {
  capturedId : string;
  capturedName : string;
  fromClan : string;
  newClan : string
}.

(** The body of the loop over [Object.entries(pointChanges)]. *)
Definition settleStep (loserClan winnerClan : string)
    (acc : option (list Row) * list Capture) (e : string * Z)
  : option (list Row) * list Capture :=
  match acc.1 with
  | None => acc
  | Some t =>
      let t' :=
        update_where e.1 (λ r, set_row_points (Z.max 0 (row_points r + e.2)) r) t in
      (Some t',
       match returning e.1 t' with
       | r :: _ =>
           if (row_points r <=? 0) && bool_decide (clan_name r = Some loserClan)
           then acc.2 ++ [{| capturedId := e.1; capturedName := row_name r;
                             fromClan := loserClan; newClan := winnerClan |}]
           else acc.2
       | [] => acc.2
       end)
  end.

(** The [clanBattleComplete] event. *)
Record Complete := {
  winnerClan : string;
  finalScore : nat * nat;
  totalCaptures : list Capture
}.

(** The settlement of [startClanBattle], after the series loop. *)
Definition settle (challenger defender : string) (clanACreator clanBCreator : option string)
    (s : Series) (db : option (list Row)) : option (list Row) * Complete :=
  let aWon := (clanBWins s <=? clanAWins s)%nat in
  let winnerClan := if aWon then challenger else defender in
  let winnerCreator := if aWon then clanACreator else clanBCreator in
  let loserClan := if bool_decide (winnerClan = challenger) then defender else challenger in
  let applied := fold_left (settleStep loserClan winnerClan) (pointChanges s) (db, []) in
  let db' :=
    fold_left (λ d c, (captureCharacter (capturedId c) (Some winnerClan) winnerCreator d).1)
      applied.2 applied.1 in
  (db', {| winnerClan := winnerClan;
           finalScore := (clanAWins s, clanBWins s);
           totalCaptures := applied.2 |}).

(** The sum of the point balances of a table. *)
Definition total_points (t : list Row) : Z :=
  foldr (λ r acc, row_points r + acc) 0 t.


(** The [startClanBattle] handler from the roster snapshots on: the series,
    then the settlement on the table as it is when the series ends. *)
Definition startClanBattle (challenger defender : string)
    (clanACreator clanBCreator : option string) (draws : nat → Draw)
    (clanAMembers clanBMembers : list Member) (db : option (list Row))
  : option (list Row) * Complete :=
  settle challenger defender clanACreator clanBCreator
    (runSeries challenger defender draws clanAMembers clanBMembers) db.

(** ** Notions the statements use *)





(** [SELECT ... WHERE od_identifier = k], and the balance it finds. *)
Definition lookup_row (k : string) (t : list Row) : option Row :=
  find (λ r, bool_decide (od_identifier r = k)) t.





(** [r] names [w] the winner and [l] the loser, for the reason [why]. *)
Definition won_by (w l : Player) (why : string) (r : Result) : Prop :=
  winner r = Some (id w) ∧ loser r = Some (id l) ∧ reason r = why.

(** The attackers the grouping loop files under target [k]. *)
Definition attackersOf (k : string) (ps : list Player) : list Player :=
  filter (λ p, attacking p = true ∧ actionTarget p = Some k) ps.

(** [attacksByTarget.get(k)], with the empty list for a missing entry. *)
Fixpoint group_get (k : string) (g : list (string * list Player)) : list Player :=
  match g with
  | [] => []
  | (k', l) :: g' => if bool_decide (k' = k) then l else group_get k g'
  end.

(** A result as the resolution loop leaves it: not yet marked as a capture,
    with a winner and a loser that are sessions of the registry. *)
Definition sound_result (ps : list Player) (r : Result) : Prop :=
  captured r = false ∧
  ∃ w l, winner r = Some w ∧ loser r = Some l ∧ w ∈ id <$> ps ∧ l ∈ id <$> ps.

(** What the resolution loop maintains. *)
Definition sound_tick (ps : list Player) (tk : Tick) : Prop :=
  NoDup (losers tk) ∧ NoDup (winners tk) ∧
  (∀ r, r ∈ results tk → sound_result ps r) ∧
  (∀ k, k ∈ losers tk → ∃ r, r ∈ results tk ∧ loser r = Some k).

(** [tk'] extends [tk]: nothing recorded is taken back. *)
Definition extends (tk tk' : Tick) : Prop :=
  (∀ r, r ∈ results tk → r ∈ results tk') ∧
  (∀ k, k ∈ losers tk → k ∈ losers tk') ∧
  (∀ k, k ∈ winners tk → k ∈ winners tk').


(** What a result says, apart from the flags added after the resolution. *)
Definition verdict (r : Result) : option string * option string * string :=
  (winner r, loser r, reason r).



(** The state the loop over the losers starts from. *)
Definition resolved (now : Z) (st : Pit) : Pit :=
  {| players := players st;
     revenge := revengeTargets (resolve now (players st) (revenge st));
     store := store st;
     battle := results (resolve now (players st) (revenge st)) |}.

(** Groups have distinct keys and are never empty. *)
Definition grouped (g : list (string * list Player)) : Prop :=
  NoDup g.*1 ∧ ∀ k l, (k, l) ∈ g → l ≠ [].

(** ** Sample data *)

Definition member (k : string) (pts num : Z) : Member :=
  {| m_od_identifier := k; m_name := k; m_points := pts;
     m_character_image := 1; m_player_number := num |}.

Definition row (k : string) (clan : string) (pts num : Z) : Row :=
  {| od_identifier := k; row_name := k; player_number := num; character_image := 1;
     row_points := pts; clan_name := Some clan; owner_id := None;
     daily_revenge_kills := 0; daily_max_streak := 0 |}.

(** Roster A keeps its order, roster B is reversed, and the coin alternates
    between distance and melee. *)
Definition sample_draw : Draw :=
  {| shuffleA := λ l, l;
     shuffleB := reverse;
     coin := λ i, if Nat.even i then 0%Q else (3 # 4)%Q |}.

Definition roster4 : list Member :=
  [member "a1" 10 50; member "a2" 10 7; member "a3" 10 93; member "a4" 10 20].

Definition roster3 : list Member :=
  [member "b1" 10 11; member "b2" 10 64; member "b3" 10 35].


(** A session in the pit with key [k], persistent identity [od], [pts]
    points, draw number [num] and no pending action. *)
Definition idle (k od : string) (pts num : Z) : Player :=
  {| id := k; odIdentifier := od; name := k; points := pts; playerNumber := num;
     characterImage := 1; clanName := None; dailyRevengeKills := 0;
     dailyMaxStreak := 0; challengeRevengeClaimed := false;
     challengeStreakClaimed := false; streak := 0; inPit := true;
     action := None; actionTarget := None; actionTime := None;
     attackType := None; canHeckle := false |}.

(** The same session once it declared an attack of type [ty] on [tgt] at
    time [at_time]. *)
Definition attacks (tgt : string) (ty : AttackType) (at_time : Z) (p : Player) : Player :=
  declare_attack tgt ty at_time p.

(** A duel on equal draw numbers against an idle target with one point left,
    on a server with a store. *)
Definition sample_pit : Pit :=
  {| players := [attacks "t" Distance 7 (idle "a" "A" 10 42); idle "t" "T" 1 42];
     revenge := ∅;
     store := Some [row "A" "Iron Pack" 10 42; row "T" "War Horde" 1 42];
     battle := [] |}.





(** ** The other handlers of a connection *)

(** What [getOrCreatePlayer] and [createNewPlayer] hand to the handlers. *)
Record Persistent := {
  persOdIdentifier : string;
  persName : string;
  persPoints : Z;
  persPlayerNumber : Z;
  persCharacterImage : Z;
  persClanName : option string;
  persDailyRevengeKills : Z;
  persDailyMaxStreak : Z;
  persChallengeRevengeClaimed : bool;
  persChallengeStreakClaimed : bool;
  isNew : bool
}.

(** The [playerData] literal of the [identify] handler. *)
Definition playerData (socketId : string) (persistent : Persistent) : Player :=
  {| id := socketId;
     odIdentifier := persOdIdentifier persistent;
     name := persName persistent;
     points := persPoints persistent;
     playerNumber := persPlayerNumber persistent;
     characterImage := persCharacterImage persistent;
     clanName := persClanName persistent;
     dailyRevengeKills := persDailyRevengeKills persistent;
     dailyMaxStreak := persDailyMaxStreak persistent;
     challengeRevengeClaimed := persChallengeRevengeClaimed persistent;
     challengeStreakClaimed := persChallengeStreakClaimed persistent;
     streak := 0; inPit := false; action := None; actionTarget := None;
     actionTime := None; attackType := None; canHeckle := false |}.

(** [players.set(k, p)]: a Map keeps the place of a key it already holds. *)
Fixpoint players_set (k : string) (p : Player) (ps : list Player) : list Player :=
  match ps with
  | [] => [p]
  | q :: ps' => if bool_decide (id q = k) then p :: ps' else q :: players_set k p ps'
  end.

(** [players.delete(k)]. *)
Definition players_delete (k : string) (ps : list Player) : list Player :=
  filter (λ p, id p ≠ k) ps.

(** The [identify] handler, once [getOrCreatePlayer] returned: a new player
    is only asked to select a character. *)
Definition onIdentify (socketId : string) (persistent : Persistent) (ps : list Player)
  : list Player :=
  if isNew persistent then ps else players_set socketId (playerData socketId persistent) ps.

(** [Math.max(1, Math.min(52, characterImage || 1))]; [None] stands for a
    value that is no number. *)
Definition validImage (characterImage : option Z) : Z :=
  Z.max 1 (Z.min 52 (match characterImage with
                     | Some 0 | None => 1
                     | Some i => i
                     end)).

(** [INSERT INTO players ... VALUES (k, name, number, image, 10) ON CONFLICT
    (od_identifier) DO UPDATE SET character_image = image]. *)
Definition insert_player (k nm : string) (num image : Z) (t : list Row) : list Row :=
  if lookup_row k t is Some _ then
    update_where k
      (λ r, {| od_identifier := od_identifier r; row_name := row_name r;
               player_number := player_number r; character_image := image;
               row_points := row_points r; clan_name := clan_name r;
               owner_id := owner_id r;
               daily_revenge_kills := daily_revenge_kills r;
               daily_max_streak := daily_max_streak r |}) t
  else
    t ++ [{| od_identifier := k; row_name := nm; player_number := num;
             character_image := image; row_points := 10; clan_name := None;
             owner_id := None; daily_revenge_kills := 0; daily_max_streak := 0 |}].

(** [createNewPlayer(playerId, name, characterImage)], [r] being the value
    of the random source. *)
Definition createNewPlayer (r : Q) (playerId nm : string) (characterImage : option Z)
    (db : option (list Row)) : option (list Row) * Persistent :=
  let playerNumber := generatePlayerNumber r in
  (insert_player playerId nm playerNumber (validImage characterImage) <$> db,
   {| persOdIdentifier := playerId; persName := nm; persPoints := 10;
      persPlayerNumber := playerNumber;
      persCharacterImage := validImage characterImage;
      persClanName := None; persDailyRevengeKills := 0; persDailyMaxStreak := 0;
      persChallengeRevengeClaimed := false; persChallengeStreakClaimed := false;
      isNew := false |}).

(** The fields the pit handlers assign. *)
Definition set_intent (pit : bool) (act : option Action) (tgt : option string)
    (time : option Z) (ty : option AttackType) (p : Player) : Player :=
  {| id := id p; odIdentifier := odIdentifier p; name := name p;
     points := points p; playerNumber := playerNumber p;
     characterImage := characterImage p; clanName := clanName p;
     dailyRevengeKills := dailyRevengeKills p; dailyMaxStreak := dailyMaxStreak p;
     challengeRevengeClaimed := challengeRevengeClaimed p;
     challengeStreakClaimed := challengeStreakClaimed p;
     streak := streak p; inPit := pit; action := act; actionTarget := tgt;
     actionTime := time; attackType := ty; canHeckle := canHeckle p |}.

(** The [joinPit] handler. *)
Definition onJoinPit (socketId : string) (ps : list Player) : list Player :=
  match players_get socketId ps with
  | Some p =>
      if inPit p then ps
      else players_alter socketId (λ p, set_intent true None None (actionTime p) None p) ps
  | None => ps
  end.

(** The [leavePit] handler. *)
Definition onLeavePit (socketId : string) (ps : list Player) : list Player :=
  match players_get socketId ps with
  | Some p =>
      if inPit p
      then players_alter socketId (λ p, set_intent false None None (actionTime p) None p) ps
      else ps
  | None => ps
  end.

(** The [defend] handler. *)
Definition onDefend (now : Z) (socketId : string) (ps : list Player) : list Player :=
  match players_get socketId ps with
  | Some p =>
      if inPit p && negb (bool_decide (is_Some (action p)))
      then players_alter socketId
             (λ p, set_intent (inPit p) (Some Defend) (actionTarget p) (Some now) None p) ps
      else ps
  | None => ps
  end.

(** The [disconnect] handler. *)
Definition onDisconnect (socketId : string) (ps : list Player) : list Player :=
  players_delete socketId ps.

(** The test of the defend sweep: [player.action === 'defend' &&
    player.actionTime && (now - player.actionTime > 10000)]. *)
Definition stale (now : Z) (p : Player) : bool :=
  bool_decide (action p = Some Defend) &&
  match actionTime p with
  | Some t => negb (t =? 0) && (now - t >? 10000)
  | None => false
  end.

(** The body of the interval timer: the registry it leaves and [changed]. *)
Definition sweep (now : Z) (ps : list Player) : list Player * bool :=
  ((λ p, if stale now p
         then set_intent (inPit p) None (actionTarget p) None (attackType p) p
         else p) <$> ps,
   existsb (stale now) ps).

(** An element of [heckles]. *)
Record Heckle := {
  heckleName : string;
  heckleMessage : string;
  heckleImage : Z;
  timestamp : Z
}.

(** [while (heckles.length > 3) heckles.pop()], with one turn of the loop for
    each unit of [fuel]. *)
Fixpoint keep_last_three (fuel : nat) (heckles : list Heckle) : list Heckle :=
  match fuel with
  | O => heckles
  | S fuel' =>
      if (3 <? length heckles)%nat
      then keep_last_three fuel' (removelast heckles)
      else heckles
  end.

(** What a handler answers to its socket. *)
Inductive Answer :=
  | Refused (message : string)
  | Silent
  | Used.

Definition set_canHeckle (b : bool) (p : Player) : Player :=
  {| id := id p; odIdentifier := odIdentifier p; name := name p;
     points := points p; playerNumber := playerNumber p;
     characterImage := characterImage p; clanName := clanName p;
     dailyRevengeKills := dailyRevengeKills p; dailyMaxStreak := dailyMaxStreak p;
     challengeRevengeClaimed := challengeRevengeClaimed p;
     challengeStreakClaimed := challengeStreakClaimed p;
     streak := streak p; inPit := inPit p; action := action p;
     actionTarget := actionTarget p; actionTime := actionTime p;
     attackType := attackType p; canHeckle := b |}.

(** The [heckle] handler. [trim] is [String.prototype.trim]. *)
Definition onHeckle (trim : string → string) (now : Z) (socketId message : string)
    (ps : list Player) (heckles : list Heckle)
  : list Player * list Heckle * Answer :=
  match players_get socketId ps with
  | None => (ps, heckles, Refused "You must win a battle to heckle!")
  | Some p =>
      if negb (canHeckle p) then (ps, heckles, Refused "You must win a battle to heckle!")
      else
        let cleanMessage := String.substring 0 100 (trim message) in
        if bool_decide (cleanMessage = "") then (ps, heckles, Silent)
        else
          let added :=
            {| heckleName := name p; heckleMessage := cleanMessage;
               heckleImage := characterImage p; timestamp := now |} :: heckles in
          (players_alter socketId (set_canHeckle false) ps,
           keep_last_three (length added) added, Used)
  end.

(** What [recruitPlayer] returns. *)
Inductive Recruited :=
  | RecruitFailed (error : string)
  | RecruitDone (name : string).

(** [recruitPlayer(targetOdIdentifier, clanName, recruiterId)]. *)
Definition recruitPlayer (targetOdIdentifier clan recruiterId : string)
    (db : option (list Row)) : option (list Row) * Recruited :=
  match db with
  | None => (None, RecruitFailed "No database")
  | Some t =>
      match lookup_row targetOdIdentifier t with
      | None => (db, RecruitFailed "Player not found")
      | Some target =>
          if row_points target >? 0
          then (db, RecruitFailed "Can only recruit players with 0 points")
          else if truthy (clan_name target)
          then (db, RecruitFailed "Player is already in a clan")
          else (Some (update_where targetOdIdentifier
                        (set_row_owner (Some clan) (Some recruiterId)) t),
                RecruitDone (row_name target))
      end
  end.

(** ** The server as a state machine *)

(** The registry, the ledger and the store, with the heckle feed. *)
Record Server := {
  pit : Pit;
  feed : list Heckle
}.

(** What reaches the server: an event of a socket, or the tick of the
    interval timer. [EvIdentify] carries what [getOrCreatePlayer] returned
    and [EvConfirmCharacter] the value the random source gave. *)
Inductive Event :=
  | EvIdentify (socketId : string) (persistent : Persistent)
  | EvConfirmCharacter (socketId odId name : string) (characterImage : option Z) (r : Q)
  | EvJoinPit (socketId : string)
  | EvLeavePit (socketId : string)
  | EvDefend (socketId : string)
  | EvAttack (socketId targetId : string) (ty : option AttackType)
  | EvHeckle (socketId message : string)
  | EvDisconnect (socketId : string)
  | EvSweep.

Definition with_players (ps : list Player) (st : Pit) : Pit :=
  {| players := ps; revenge := revenge st; store := store st; battle := battle st |}.

(** The [confirmCharacter] handler: its [playerData] literal is that of
    [identify] on what [createNewPlayer] returns. *)
Definition onConfirmCharacter (r : Q) (socketId odId nm : string)
    (characterImage : option Z) (st : Pit) : Pit :=
  let created := createNewPlayer r odId nm characterImage (store st) in
  {| players := players_set socketId (playerData socketId created.2) (players st);
     revenge := revenge st; store := created.1; battle := battle st |}.

(** The server after the handler of [ev] ran at time [now]. A handler runs
    to its end before the next event is taken: what another handler could do
    while this one awaits the store is not part of the model. *)
Definition step (trim : string → string) (now : Z) (srv : Server) (ev : Event) : Server :=
  match ev with
  | EvIdentify k persistent =>
      {| pit := with_players (onIdentify k persistent (players (pit srv))) (pit srv);
         feed := feed srv |}
  | EvConfirmCharacter k odId nm characterImage r =>
      {| pit := onConfirmCharacter r k odId nm characterImage (pit srv); feed := feed srv |}
  | EvJoinPit k =>
      {| pit := with_players (onJoinPit k (players (pit srv))) (pit srv); feed := feed srv |}
  | EvLeavePit k =>
      {| pit := with_players (onLeavePit k (players (pit srv))) (pit srv); feed := feed srv |}
  | EvDefend k =>
      {| pit := with_players (onDefend now k (players (pit srv))) (pit srv);
         feed := feed srv |}
  | EvAttack k targetId ty =>
      {| pit := (onAttack now k targetId ty (pit srv)).1; feed := feed srv |}
  | EvHeckle k message =>
      let '(ps, heckles, _) :=
        onHeckle trim now k message (players (pit srv)) (feed srv) in
      {| pit := with_players ps (pit srv); feed := heckles |}
  | EvDisconnect k =>
      {| pit := with_players (onDisconnect k (players (pit srv))) (pit srv);
         feed := feed srv |}
  | EvSweep =>
      {| pit := with_players (sweep now (players (pit srv))).1 (pit srv); feed := feed srv |}
  end.

(** The socket an event comes from. *)
Definition socket_of (ev : Event) : option string :=
  match ev with
  | EvIdentify k _ | EvConfirmCharacter k _ _ _ _ | EvJoinPit k | EvLeavePit k
  | EvDefend k | EvAttack k _ _ | EvHeckle k _ | EvDisconnect k => Some k
  | EvSweep => None
  end.

(** A session between two events: no pending attack, and no action outside
    the pit. *)
Definition at_rest (p : Player) : Prop :=
  action p ≠ Some Attack ∧ (inPit p = false → action p = None).

(** A registry between two events: distinct, non-empty keys and sessions at
    rest. *)
Definition calm (ps : list Player) : Prop :=
  NoDup (id <$> ps) ∧ ("" ∉ id <$> ps) ∧ ∀ p, p ∈ ps → at_rest p.

(** Between two events the registry is calm and the feed holds at most three
    heckles. *)
Definition settled (srv : Server) : Prop :=
  calm (players (pit srv)) ∧ (length (feed srv) ≤ 3)%nat.

(** The server when it starts, and after a sequence of timed events. *)
Definition boot (db : option (list Row)) : Server :=
  {| pit := {| players := []; revenge := ∅; store := db; battle := [] |}; feed := [] |}.

Definition run (trim : string → string) (evs : list (Z * Event)) (srv : Server) : Server :=
  fold_left (λ s e, step trim e.1 s e.2) evs srv.

(** The registry of the [attack] handler when it calls [processAllAttacks]. *)
Definition declared (now : Z) (socketId targetId : string) (ty : AttackType) (st : Pit)
  : Pit :=
  {| players := players_alter socketId (declare_attack targetId ty now) (players st);
     revenge := revenge st; store := store st; battle := [] |}.

(** No bonus of the tick is negative. *)
Definition sane_bonuses (tk : Tick) : Prop :=
  ∀ k v, winnerBonuses tk !! k = Some v → 0 ≤ v.

(** The order of the leaderboard: most points first. *)
Definition by_points (e e' : LeaderboardEntry) : Prop := lbPoints e' ≤ lbPoints e.


(** ** More sample data *)

(** Two idle sessions in the pit, the first with a live revenge claim on the
    second, on a server with a store. *)
Definition quiet_pit : Pit :=
  {| players := [idle "a" "A" 10 50; idle "t" "T" 10 10];
     revenge := {[ "A" := {| revengeOn := "T"; expiresAt := 5000 |} ]};
     store := Some [row "A" "Iron Pack" 10 50; row "T" "War Horde" 10 10];
     battle := [] |}.

(** A pending attack on a session that is gone. *)
Definition stray_pit : Pit :=
  {| players := [attacks "z" Distance 7 (idle "a" "A" 10 5); idle "t" "T" 1 2];
     revenge := ∅; store := None; battle := [] |}.

(** What [getOrCreatePlayer] returns for a player the store knows. *)
Definition returning_player (od : string) : Persistent :=
  {| persOdIdentifier := od; persName := od; persPoints := 10; persPlayerNumber := 42;
     persCharacterImage := 1; persClanName := None; persDailyRevengeKills := 0;
     persDailyMaxStreak := 0; persChallengeRevengeClaimed := false;
     persChallengeStreakClaimed := false; isNew := false |}.

(** Two players connect, enter the pit and fight; the winner heckles. *)
Definition sample_events : list (Z * Event) :=
  [(1, EvIdentify "a" (returning_player "A")); (2, EvIdentify "t" (returning_player "T"));
   (3, EvJoinPit "a"); (4, EvJoinPit "t"); (5, EvDefend "t");
   (6, EvAttack "a" "t" (Some Distance)); (7, EvHeckle "a" "ha"); (8, EvSweep);
   (9, EvDisconnect "t")].

(** * Properties *)

(** ** The combat resolver *)

Lemma targets_spec (t : option string) (k : string) :
  targets t k = true ↔ t = Some k.
Proof.
  destruct t as [s|]; simpl; [|naive_solver].
  rewrite bool_decide_eq_true. naive_solver.
Qed.

Lemma determineWinner_mutual (a t : Player) :
  mutual a t →
  determineWinner a t =
    match attackType a, attackType t with
    | Some Distance, Some Melee =>
        decide_for a t "distance beats melee" (newResult a t)
    | Some Melee, Some Distance =>
        set_attackType (attackType t)
          (decide_for t a "distance beats melee" (newResult a t))
    | _, _ =>
        if js_lt (actionTime a) (actionTime t)
        then decide_for a t "faster draw" (newResult a t)
        else decide_for t a "faster draw" (newResult a t)
    end.
Proof.
  intros [Hact Htgt]. unfold determineWinner, isAttack.
  rewrite Hact, Htgt. simpl.
  rewrite !bool_decide_eq_true_2 by done. reflexivity.
Qed.

Lemma determineWinner_passive (a t : Player) :
  passive t →
  determineWinner a t =
    if bool_decide (attackType a = Some Distance) then
      if playerNumber a >=? playerNumber t then
        decide_for a t
          (if playerNumber a =? playerNumber t then "tie - attacker wins" else "higher number")
          (newResult a t)
      else decide_for t a "higher number" (newResult a t)
    else
      if playerNumber a <=? playerNumber t then
        decide_for a t
          (if playerNumber a =? playerNumber t then "tie - attacker wins" else "lower number")
          (newResult a t)
      else decide_for t a "lower number" (newResult a t).
Proof.
  intros Hp. unfold determineWinner, isAttack.
  destruct Hp as [-> | ->]; reflexivity.
Qed.

(** C3. In a mutual duel a distance attacker beats a melee attacker whatever
    the draw numbers are, on either side of the call; when both sides chose
    the same attack type, the side with the strictly earlier action
    timestamp wins, and the reason is "faster draw". *)
Theorem mutual_duel_rules (a t : Player) :
  mutual a t →
  (attackType a = Some Distance → attackType t = Some Melee →
   won_by a t "distance beats melee" (determineWinner a t)) ∧
  (attackType a = Some Melee → attackType t = Some Distance →
   won_by t a "distance beats melee" (determineWinner a t)) ∧
  (attackType a = attackType t →
   ∀ ta tt, actionTime a = Some ta → actionTime t = Some tt →
     (ta < tt → won_by a t "faster draw" (determineWinner a t)) ∧
     (tt < ta → won_by t a "faster draw" (determineWinner a t))).
Proof.
  intros Hm. rewrite (determineWinner_mutual a t Hm).
  split; [|split].
  - intros -> ->. by repeat split.
  - intros -> ->. by repeat split.
  - intros Hty ta tt Ha Ht. unfold js_lt. rewrite Ha, Ht. simpl.
    rewrite Hty.
    split; intros Hlt.
    + assert ((ta <? tt) = true) as -> by lia.
      destruct (attackType t) as [[]|]; by repeat split.
    + assert ((ta <? tt) = false) as -> by lia.
      destruct (attackType t) as [[]|]; by repeat split.
Qed.

Lemma mutual_duel_rules_witness :
  won_by (attacks "t" Distance 7 (idle "a" "A" 10 5))
         (attacks "a" Melee 3 (idle "t" "T" 10 90))
         "distance beats melee"
         (determineWinner (attacks "t" Distance 7 (idle "a" "A" 10 5))
                          (attacks "a" Melee 3 (idle "t" "T" 10 90))).
Proof.
  apply (mutual_duel_rules (attacks "t" Distance 7 (idle "a" "A" 10 5))
                           (attacks "a" Melee 3 (idle "t" "T" 10 90)));
    [split; reflexivity | reflexivity | reflexivity].
Defined.

(** C4. Against a target that is defending or idle the draw numbers decide:
    a distance attacker wins when its number is greater than or equal to the
    target's and loses otherwise, a melee attacker wins when its number is
    less than or equal to it and loses otherwise, and on equal numbers the
    attacker wins with a reason that starts with "tie". For two distinct
    sessions the winner is the attacker exactly in those cases. *)
Theorem passive_target_rules (a t : Player) :
  passive t →
  (attackType a = Some Distance →
   (playerNumber a >= playerNumber t →
    winner (determineWinner a t) = Some (id a) ∧
    loser (determineWinner a t) = Some (id t)) ∧
   (playerNumber a < playerNumber t →
    winner (determineWinner a t) = Some (id t) ∧
    loser (determineWinner a t) = Some (id a)) ∧
   (id a ≠ id t →
    (winner (determineWinner a t) = Some (id a) ↔ playerNumber a >= playerNumber t))) ∧
  (attackType a = Some Melee →
   (playerNumber a <= playerNumber t →
    winner (determineWinner a t) = Some (id a) ∧
    loser (determineWinner a t) = Some (id t)) ∧
   (playerNumber a > playerNumber t →
    winner (determineWinner a t) = Some (id t) ∧
    loser (determineWinner a t) = Some (id a)) ∧
   (id a ≠ id t →
    (winner (determineWinner a t) = Some (id a) ↔ playerNumber a <= playerNumber t))) ∧
  (playerNumber a = playerNumber t →
   won_by a t "tie - attacker wins" (determineWinner a t) ∧
   String.prefix "tie" (reason (determineWinner a t)) = true).
Proof.
  intros Hp. rewrite (determineWinner_passive a t Hp).
  split; [|split].
  - intros ->. rewrite bool_decide_eq_true_2 by done.
    destruct (playerNumber a >=? playerNumber t) eqn:E; simpl;
      rewrite Z.geb_leb in E.
    + apply Z.leb_le in E.
      split; [done|]. split; [lia|]. intros _. split; [lia|done].
    + apply Z.leb_gt in E.
      split; [lia|]. split; [done|]. intros Hne. split; [|lia]. intros [=]. done.
  - intros ->. rewrite bool_decide_eq_false_2 by done.
    destruct (playerNumber a <=? playerNumber t) eqn:E; simpl.
    + apply Z.leb_le in E.
      split; [done|]. split; [lia|]. intros _. split; [lia|done].
    + apply Z.leb_gt in E.
      split; [lia|]. split; [done|]. intros Hne. split; [|lia]. intros [=]. done.
  - intros Heq. rewrite Heq, Z.eqb_refl.
    assert ((playerNumber t >=? playerNumber t) = true) as ->
      by (rewrite Z.geb_leb; lia).
    rewrite Z.leb_refl.
    destruct (bool_decide _); by repeat split.
Qed.

Lemma passive_target_rules_witness :
  won_by (attacks "t" Distance 7 (idle "a" "A" 10 42)) (idle "t" "T" 10 42)
         "tie - attacker wins"
         (determineWinner (attacks "t" Distance 7 (idle "a" "A" 10 42))
                          (idle "t" "T" 10 42)).
Proof.
  apply (passive_target_rules (attacks "t" Distance 7 (idle "a" "A" 10 42))
                              (idle "t" "T" 10 42));
    [right; reflexivity | reflexivity].
Defined.

(** C10. In a mutual duel with the same attack type on both sides and exactly
    equal action timestamps, [determineWinner] gives the win to its target
    argument, with reason "faster draw"; the attacker argument wins such a
    duel only when its timestamp is strictly earlier. *)
Theorem equal_timestamps_favour_target (a t : Player) :
  mutual a t →
  attackType a = attackType t →
  (actionTime a = actionTime t → won_by t a "faster draw" (determineWinner a t)) ∧
  (id a ≠ id t → winner (determineWinner a t) = Some (id a) →
   toNumber (actionTime a) < toNumber (actionTime t)).
Proof.
  intros Hm Hty. rewrite (determineWinner_mutual a t Hm), Hty.
  unfold js_lt. split.
  - intros ->. rewrite Z.ltb_irrefl.
    destruct (attackType t) as [[]|]; by repeat split.
  - intros Hne.
    destruct (toNumber (actionTime a) <? toNumber (actionTime t)) eqn:E.
    + intros _. by apply Z.ltb_lt.
    + destruct (attackType t) as [[]|]; simpl; intros [=]; done.
Qed.

Lemma equal_timestamps_favour_target_witness :
  won_by (attacks "a" Melee 7 (idle "t" "T" 10 90))
         (attacks "t" Melee 7 (idle "a" "A" 10 5))
         "faster draw"
         (determineWinner (attacks "t" Melee 7 (idle "a" "A" 10 5))
                          (attacks "a" Melee 7 (idle "t" "T" 10 90))).
Proof.
  apply (equal_timestamps_favour_target (attacks "t" Melee 7 (idle "a" "A" 10 5))
                                        (attacks "a" Melee 7 (idle "t" "T" 10 90)));
    [split; reflexivity | reflexivity | reflexivity].
Defined.

(** ** Character creation *)




(** ** Clan battles *)

Section series.
Variables challenger defender : string.
Variable draws : nat → Draw.
Variables clanAMembers clanBMembers : list Member.
Hypothesis draws_shuffle : ∀ n, shuffles (draws n).






Lemma seriesLoop_cons (n : nat) (rest : list nat) (s : Series) :
  seriesLoop challenger defender draws clanAMembers clanBMembers (n :: rest) s =
    if (2 <=? clanAWins s)%nat || (2 <=? clanBWins s)%nat then s
    else seriesLoop challenger defender draws clanAMembers clanBMembers rest
           (playRound challenger defender (draws n) clanAMembers clanBMembers n s).
Proof. reflexivity. Qed.



End series.

(** *** Point changes and their settlement *)








Section changes.
Variables challenger defender : string.
Variable draws : nat → Draw.
Variables clanAMembers clanBMembers : list Member.
Hypothesis draws_shuffle : ∀ n, shuffles (draws n).



End changes.

Lemma update_where_keys (k : string) (f : Row → Row) (t : list Row) :
  (∀ r, od_identifier (f r) = od_identifier r) →
  od_identifier <$> update_where k f t = od_identifier <$> t.
Proof.
  intros Hf. unfold update_where. induction t as [|r t IH]; csimpl; [done|].
  rewrite IH. f_equal. case_bool_decide; [apply Hf|done].
Qed.

Lemma lookup_row_update (k k' : string) (f : Row → Row) (t : list Row) :
  (∀ r, od_identifier (f r) = od_identifier r) →
  lookup_row k' (update_where k f t) =
    if bool_decide (k' = k) then f <$> lookup_row k' t else lookup_row k' t.
Proof.
  intros Hf. unfold lookup_row, update_where.
  induction t as [|r t IH]; simpl; [by case_bool_decide|].
  destruct (decide (od_identifier r = k)) as [Hr|Hr].
  - rewrite (bool_decide_eq_true_2 _ Hr). rewrite Hf.
    destruct (decide (od_identifier r = k')) as [Hr'|Hr'].
    + rewrite (bool_decide_eq_true_2 _ Hr').
      rewrite bool_decide_eq_true_2 by congruence. done.
    + rewrite (bool_decide_eq_false_2 _ Hr'). apply IH.
  - rewrite (bool_decide_eq_false_2 _ Hr).
    destruct (decide (od_identifier r = k')) as [Hr'|Hr'].
    + rewrite (bool_decide_eq_true_2 _ Hr').
      rewrite bool_decide_eq_false_2 by congruence. done.
    + rewrite (bool_decide_eq_false_2 _ Hr'). apply IH.
Qed.


Lemma lookup_row_None (k : string) (t : list Row) :
  k ∉ od_identifier <$> t → lookup_row k t = None.
Proof.
  unfold lookup_row. induction t as [|r t IH]; csimpl; [done|].
  intros Hk. rewrite bool_decide_eq_false_2.
  - apply IH. intros ?. apply Hk. by right.
  - intros <-. apply Hk. left.
Qed.


Lemma total_points_owner (k : string) (clan owner : option string) (t : list Row) :
  total_points (update_where k (set_row_owner clan owner) t) = total_points t.
Proof.
  unfold update_where. induction t as [|r t IH]; simpl; [done|].
  rewrite IH. by case_bool_decide.
Qed.








(** ** What clients are sent *)

Lemma insertByPoints_blind (p : Player) (l : list Player) :
  blind <$> insertByPoints p l = insertByPoints (blind p) (blind <$> l).
Proof.
  induction l as [|q l IH]; csimpl; [done|].
  destruct (points p <? points q); csimpl; [by rewrite IH|done].
Qed.

Lemma sortByPoints_blind (ps : list Player) :
  blind <$> sortByPoints ps = sortByPoints (blind <$> ps).
Proof.
  induction ps as [|p ps IH]; csimpl; [done|].
  by rewrite insertByPoints_blind, IH.
Qed.

Lemma players_get_blind (k : string) (ps : list Player) :
  blind <$> players_get k ps = players_get k (blind <$> ps).
Proof.
  unfold players_get. induction ps as [|p ps IH]; csimpl; [done|].
  by destruct (bool_decide (id p = k)).
Qed.

Lemma filter_inPit_blind (ps : list Player) :
  blind <$> filter (λ p, inPit p = true) ps
  = filter (λ p, inPit p = true) (blind <$> ps).
Proof.
  induction ps as [|p ps IH]; csimpl; [done|].
  rewrite !filter_cons. simpl. case_decide; csimpl; by rewrite IH.
Qed.

(** C8, as amended. The leaderboard and the pit occupant list show no draw
    number: each is the same for any two registries that differ only in the
    draw numbers of their sessions. A battle result, from the resolver or
    from a gang attack, is built with the draw numbers of its attacker and
    of its defender. *)
Theorem snapshots_hide_numbers :
  hides_numbers getLeaderboard ∧
  (∀ (now : Z) (rv : gmap string Revenge) (viewer : string),
     hides_numbers (λ ps, getPitPlayers now rv ps viewer)) ∧
  (∀ a t : Player,
     attackerNumber (determineWinner a t) = playerNumber a ∧
     defenderNumber (determineWinner a t) = playerNumber t) ∧
  (∀ (a t : Player) (isRev : bool),
     attackerNumber (gangResult a t isRev) = playerNumber a ∧
     defenderNumber (gangResult a t isRev) = playerNumber t).
Proof.
  split_and!; [| |intros a t; unfold determineWinner; by repeat case_match|done].
  - intros ps qs Hsame. unfold getLeaderboard.
    transitivity (leaderboardEntry <$> (blind <$> sortByPoints ps)).
    { rewrite <- list_fmap_compose. by apply list_fmap_ext. }
    rewrite sortByPoints_blind, Hsame, <- sortByPoints_blind.
    rewrite <- list_fmap_compose. by apply list_fmap_ext.
  - intros now rv viewer ps qs Hsame. unfold getPitPlayers.
    assert (∀ l, (players_get viewer l ≫= λ rp, rv !! odIdentifier rp)
                 = (blind <$> players_get viewer l) ≫= λ rp, rv !! odIdentifier rp) as Hget.
    { intros l. by destruct (players_get viewer l). }
    rewrite (Hget ps), (Hget qs), !players_get_blind, Hsame.
    set (mine := match _ with Some r => _ | None => None end).
    transitivity (pitEntry mine <$> (blind <$> filter (λ p, inPit p = true) ps)).
    { rewrite <- list_fmap_compose. by apply list_fmap_ext. }
    rewrite filter_inPit_blind, Hsame, <- filter_inPit_blind.
    rewrite <- list_fmap_compose. by apply list_fmap_ext.
Qed.

Lemma snapshots_hide_numbers_witness :
  getLeaderboard [idle "a" "A" 10 5; idle "t" "T" 12 90]
  = getLeaderboard [idle "a" "A" 10 77; idle "t" "T" 12 3].
Proof.
  apply (proj1 snapshots_hide_numbers). reflexivity.
Defined.

(** C8, as stated, fails: the batch the [attack] handler sends after a duel
    differs between two registries that differ only in draw numbers, although
    the attacker wins in both; each record carries [attackerNumber] and
    [defenderNumber]. *)
Lemma battle_results_show_numbers :
  ¬ hides_numbers
      (λ ps, (onAttack 1000 "a" "t" (Some Distance)
                {| players := ps; revenge := ∅; store := None; battle := [] |}).2).
Proof.
  intros H.
  specialize (H [idle "a" "A" 10 50; idle "t" "T" 10 10]
                [idle "a" "A" 10 60; idle "t" "T" 10 10] eq_refl).
  vm_compute in H. discriminate H.
Qed.
(** ** The pit tick *)

(** *** Sets, lookups and in-place mutation *)

Lemma elem_of_set_add (x k : string) (s : list string) :
  x ∈ set_add k s ↔ x = k ∨ x ∈ s.
Proof.
  unfold set_add. case_bool_decide.
  - split; [by right|]. by intros [->|?].
  - rewrite elem_of_app, list_elem_of_singleton. tauto.
Qed.

Lemma NoDup_set_add (k : string) (s : list string) :
  NoDup s → NoDup (set_add k s).
Proof.
  intros Hs. unfold set_add. case_bool_decide; [done|].
  apply NoDup_app. split_and!; [done| |apply NoDup_singleton].
  intros x Hx ->%list_elem_of_singleton. done.
Qed.

Lemma players_get_Some (k : string) (ps : list Player) (p : Player) :
  players_get k ps = Some p → p ∈ ps ∧ id p = k.
Proof.
  unfold players_get. induction ps as [|q ps IH]; simpl; [done|].
  case_bool_decide as Hq.
  - intros [= <-]. split; [left|done].
  - intros [Hin Hid]%IH. split; [by right|done].
Qed.

Lemma players_get_is_Some (k : string) (ps : list Player) :
  k ∈ id <$> ps → is_Some (players_get k ps).
Proof.
  unfold players_get. induction ps as [|q ps IH]; csimpl.
  { intros H. by apply elem_of_nil in H. }
  intros Hin. case_bool_decide as Hq; [by eexists|].
  apply IH. apply elem_of_cons in Hin as [->|Hin]; done.
Qed.

Lemma players_get_elem (ps : list Player) (p : Player) :
  NoDup (id <$> ps) → p ∈ ps → players_get (id p) ps = Some p.
Proof.
  unfold players_get. induction ps as [|q ps IH]; csimpl.
  { intros _ H. by apply elem_of_nil in H. }
  intros [Hq Hnd]%NoDup_cons [->|Hin]%elem_of_cons.
  - by rewrite bool_decide_eq_true_2.
  - rewrite bool_decide_eq_false_2; [by apply IH|].
    intros E. apply Hq. rewrite E. by apply list_elem_of_fmap_2.
Qed.

Lemma alter_first_ids {A B} (g : A → B) (P : A → bool) (f : A → A) (l : list A) :
  (∀ x, g (f x) = g x) → g <$> alter_first P f l = g <$> l.
Proof.
  intros Hf. induction l as [|x l IH]; csimpl; [done|].
  destruct (P x); csimpl; [by rewrite Hf|by rewrite IH].
Qed.

Lemma players_alter_ids (k : string) (f : Player → Player) (ps : list Player) :
  (∀ p, id (f p) = id p) → id <$> players_alter k f ps = id <$> ps.
Proof. apply alter_first_ids. Qed.

Lemma players_get_alter (k k' : string) (f : Player → Player) (ps : list Player) :
  (∀ p, id (f p) = id p) →
  players_get k (players_alter k' f ps) =
    if bool_decide (k = k') then f <$> players_get k ps else players_get k ps.
Proof.
  intros Hf. unfold players_get, players_alter.
  induction ps as [|p ps IH]; simpl; [by destruct (bool_decide _)|].
  destruct (decide (id p = k')) as [Hp|Hp].
  - rewrite (bool_decide_eq_true_2 _ Hp). simpl. rewrite Hf.
    destruct (decide (k = k')) as [->|Hk].
    + rewrite (bool_decide_eq_true_2 (k' = k')) by done.
      by rewrite (bool_decide_eq_true_2 _ Hp).
    + rewrite (bool_decide_eq_false_2 (k = k')) by done.
      by rewrite !(bool_decide_eq_false_2 (id p = k)) by congruence.
  - rewrite (bool_decide_eq_false_2 _ Hp). simpl.
    destruct (decide (id p = k)) as [Hpk|Hpk].
    + rewrite (bool_decide_eq_true_2 _ Hpk).
      rewrite bool_decide_eq_false_2 by congruence. done.
    + rewrite (bool_decide_eq_false_2 _ Hpk). apply IH.
Qed.

(** A projection of the first match is kept by a mutation that keeps the
    projection and the test. *)
Lemma find_alter_first {A B} (g : A → B) (P Q : A → bool) (f : A → A) (l : list A) :
  (∀ x, P (f x) = P x) → (∀ x, g (f x) = g x) →
  g <$> find P (alter_first Q f l) = g <$> find P l.
Proof.
  intros HP Hg. induction l as [|x l IH]; simpl; [done|].
  destruct (Q x); simpl.
  - rewrite HP. destruct (P x); simpl; [by rewrite Hg|done].
  - destruct (P x); simpl; [done|apply IH].
Qed.




(** *** Grouping the attackers by target *)

Lemma group_push_keys (k : string) (p : Player) (g : list (string * list Player)) :
  (group_push k p g).*1 = if bool_decide (k ∈ g.*1) then g.*1 else g.*1 ++ [k].
Proof.
  induction g as [|[k' l] g IH]; csimpl; [done|].
  destruct (decide (k' = k)) as [->|Hne].
  - rewrite (bool_decide_eq_true_2 (k = k)) by done.
    rewrite (bool_decide_eq_true_2 (k ∈ _ :: _)) by left. done.
  - rewrite (bool_decide_eq_false_2 (k' = k)) by done. csimpl.
    rewrite IH. destruct (decide (k ∈ g.*1)) as [Hin|Hin].
    + rewrite (bool_decide_eq_true_2 (k ∈ g.*1)) by done.
      rewrite (bool_decide_eq_true_2 (k ∈ _ :: _)) by (by right). done.
    + rewrite (bool_decide_eq_false_2 (k ∈ g.*1)) by done.
      rewrite (bool_decide_eq_false_2 (k ∈ _ :: _)); [done|].
      intros [?|?]%elem_of_cons; congruence.
Qed.

Lemma group_push_NoDup (k : string) (p : Player) (g : list (string * list Player)) :
  NoDup g.*1 → NoDup (group_push k p g).*1.
Proof.
  intros Hg. rewrite group_push_keys. case_bool_decide; [done|].
  apply NoDup_app. split_and!; [done| |apply NoDup_singleton].
  intros x Hx ->%list_elem_of_singleton. done.
Qed.

Lemma group_get_push (k k' : string) (p : Player) (g : list (string * list Player)) :
  group_get k (group_push k' p g) =
    if bool_decide (k = k') then group_get k g ++ [p] else group_get k g.
Proof.
  induction g as [|[k0 l] g IH]; simpl.
  { destruct (decide (k = k')) as [->|Hne].
    - by rewrite !bool_decide_eq_true_2.
    - rewrite (bool_decide_eq_false_2 (k = k')) by done.
      by rewrite bool_decide_eq_false_2. }
  destruct (decide (k0 = k')) as [->|H0]; simpl.
  - rewrite (bool_decide_eq_true_2 (k' = k')) by done. simpl.
    destruct (decide (k = k')) as [->|Hne].
    + by rewrite !bool_decide_eq_true_2.
    + rewrite (bool_decide_eq_false_2 (k = k')) by done.
      by rewrite !(bool_decide_eq_false_2 (k' = k)).
  - rewrite (bool_decide_eq_false_2 (k0 = k')) by done. simpl.
    destruct (decide (k0 = k)) as [->|H1].
    + rewrite !bool_decide_eq_true_2 by done.
      by rewrite bool_decide_eq_false_2.
    + rewrite (bool_decide_eq_false_2 (k0 = k)) by done. apply IH.
Qed.

Lemma group_get_elem (k : string) (l : list Player) (g : list (string * list Player)) :
  NoDup g.*1 → (k, l) ∈ g → group_get k g = l.
Proof.
  induction g as [|[k' l'] g IH]; csimpl.
  { intros _ H. by apply elem_of_nil in H. }
  intros [Hk' Hnd]%NoDup_cons [[= -> ->]|Hin]%elem_of_cons.
  - by rewrite bool_decide_eq_true_2.
  - rewrite bool_decide_eq_false_2; [by apply IH|].
    intros ->. apply Hk'. apply list_elem_of_fmap. by exists (k, l).
Qed.

Lemma group_get_nonempty (k : string) (g : list (string * list Player)) :
  group_get k g ≠ [] → (k, group_get k g) ∈ g.
Proof.
  induction g as [|[k' l'] g IH]; simpl; [done|].
  case_bool_decide as Hk.
  - subst. intros _. left.
  - intros H. right. by apply IH.
Qed.

Lemma attackersOf_cons (k : string) (p : Player) (ps : list Player) :
  attackersOf k (p :: ps) =
    if attacking p && targets (actionTarget p) k
    then p :: attackersOf k ps else attackersOf k ps.
Proof.
  unfold attackersOf. rewrite filter_cons.
  case_decide as H.
  - destruct H as [-> Ht]. apply targets_spec in Ht. by rewrite Ht.
  - destruct (attacking p) eqn:Ha; simpl; [|done].
    destruct (targets (actionTarget p) k) eqn:Ht; [|done].
    apply targets_spec in Ht. by destruct H.
Qed.

Lemma group_player_get (k : string) (p : Player) (g : list (string * list Player)) :
  group_get k (group_player g p) = group_get k g ++ attackersOf k [p].
Proof.
  rewrite attackersOf_cons. unfold group_player, attackersOf. rewrite filter_nil.
  destruct (attacking p) eqn:Ha; simpl; [|by rewrite app_nil_r].
  destruct (actionTarget p) as [k'|] eqn:Ht; simpl; [|by rewrite app_nil_r].
  rewrite group_get_push.
  destruct (decide (k = k')) as [->|Hne].
  - by rewrite !bool_decide_eq_true_2.
  - rewrite (bool_decide_eq_false_2 (k = k')) by done.
    rewrite (bool_decide_eq_false_2 (k' = k)) by done. by rewrite app_nil_r.
Qed.

Lemma group_push_elem (k k' : string) (l : list Player) (p : Player)
    (g : list (string * list Player)) :
  (k, l) ∈ group_push k' p g → l ≠ [] ∨ (k, l) ∈ g.
Proof.
  induction g as [|[k0 l0] g IH]; simpl.
  { intros [= -> ->]%list_elem_of_singleton. by left. }
  case_bool_decide.
  - intros [[= -> ->]|Hin]%elem_of_cons.
    + left. by destruct l0.
    + right. by right.
  - intros [[= -> ->]|Hin]%elem_of_cons.
    + right. left.
    + destruct (IH Hin); [by left|right; by right].
Qed.

Lemma group_player_grouped (p : Player) (g : list (string * list Player)) :
  grouped g → grouped (group_player g p).
Proof.
  intros [Hnd Hne]. unfold group_player.
  destruct (attacking p); [|done].
  destruct (actionTarget p) as [k'|]; [|done].
  split; [by apply group_push_NoDup|].
  intros k l [?|?]%group_push_elem; [done|by eapply Hne].
Qed.

Lemma attacksByTarget_fold (ps : list Player) (g : list (string * list Player)) :
  grouped g →
  grouped (fold_left group_player ps g) ∧
  ∀ k, group_get k (fold_left group_player ps g) = group_get k g ++ attackersOf k ps.
Proof.
  revert g. induction ps as [|p ps IH]; intros g Hg; simpl.
  { split; [done|]. intros k. unfold attackersOf. by rewrite filter_nil, app_nil_r. }
  destruct (IH (group_player g p)) as [Hgr Hget]; [by apply group_player_grouped|].
  split; [done|]. intros k. rewrite Hget, group_player_get, <- app_assoc.
  f_equal. change (p :: ps) with ([p] ++ ps).
  unfold attackersOf. by rewrite filter_app.
Qed.

(** The groups of [attacksByTarget]: one for each target that has attackers,
    holding its attackers in registry order. *)
Lemma attacksByTarget_spec (ps : list Player) :
  NoDup (attacksByTarget ps).*1 ∧
  ∀ k l, (k, l) ∈ attacksByTarget ps ↔ l = attackersOf k ps ∧ l ≠ [].
Proof.
  destruct (attacksByTarget_fold ps []) as [[Hnd Hne] Hget].
  { split; [apply NoDup_nil_2|]. intros k l H. by apply elem_of_nil in H. }
  fold (attacksByTarget ps) in *. split; [done|].
  intros k l. split.
  - intros Hin. split; [|by eapply Hne].
    rewrite <- (group_get_elem k l _ Hnd Hin). by rewrite Hget.
  - intros [-> Hl]. specialize (Hget k). simpl in Hget.
    rewrite <- Hget in Hl |- *. by apply group_get_nonempty.
Qed.

(** *** The resolution loop *)

Lemma determineWinner_sides (a t : Player) :
  captured (determineWinner a t) = false ∧
  ((winner (determineWinner a t) = Some (id a) ∧ loser (determineWinner a t) = Some (id t)) ∨
   (winner (determineWinner a t) = Some (id t) ∧ loser (determineWinner a t) = Some (id a))).
Proof.
  unfold determineWinner.
  repeat (case_match; simpl); auto.
Qed.

Lemma extends_refl (tk : Tick) : extends tk tk.
Proof. by split_and!. Qed.

Lemma extends_trans (tk1 tk2 tk3 : Tick) :
  extends tk1 tk2 → extends tk2 tk3 → extends tk1 tk3.
Proof. intros (?&?&?) (?&?&?). split_and!; auto. Qed.









Lemma gangStep_extends (now : Z) (t a : Player) (tk : Tick) :
  extends tk (gangStep now t tk a).
Proof.
  split_and!; simpl; [|done|].
  - intros r Hr. apply elem_of_app. by left.
  - intros k Hk. apply elem_of_set_add. by right.
Qed.

Lemma gang_extends (now : Z) (t : Player) (l : list Player) (tk : Tick) :
  extends tk (fold_left (gangStep now t) l tk).
Proof.
  revert tk. induction l as [|b l IH]; intros tk; simpl; [apply extends_refl|].
  eapply extends_trans; [apply gangStep_extends|apply IH].
Qed.




Lemma gang_fold_sound (now : Z) (ps : list Player) (t : Player) (l : list Player)
    (tk : Tick) :
  t ∈ ps → (∀ a, a ∈ l → a ∈ ps) →
  NoDup (losers tk) → NoDup (winners tk) →
  (∀ r, r ∈ results tk → sound_result ps r) →
  let tk' := fold_left (gangStep now t) l tk in
  losers tk' = losers tk ∧ NoDup (winners tk') ∧
  (∀ r, r ∈ results tk' → sound_result ps r) ∧
  (l ≠ [] → ∃ r, r ∈ results tk' ∧ loser r = Some (id t)).
Proof.
  intros Ht. revert tk. induction l as [|a l IH]; intros tk Hl Hlo Hwi Hres; simpl.
  { by split_and!. }
  destruct (IH (gangStep now t tk a)) as (Hlo' & Hwi' & Hres' & _).
  - intros b Hb. apply Hl. by right.
  - done.
  - simpl. by apply NoDup_set_add.
  - simpl. intros r [Hr| ->%list_elem_of_singleton]%elem_of_app; [by apply Hres|].
    split; [done|]. exists (id a), (id t). split_and!; try done.
    + apply list_elem_of_fmap_2. apply Hl. left.
    + by apply list_elem_of_fmap_2.
  - split_and!; try done. intros _.
    exists (gangResult a t (holdsRevenge now (revengeTargets tk) a t)).
    split; [|done].
    apply (gang_extends now t l (gangStep now t tk a)).
    simpl. apply elem_of_app. right. left.
Qed.

Lemma duelStep_sound (now : Z) (ps : list Player) (t a : Player) (tk : Tick) :
  t ∈ ps → a ∈ ps → sound_tick ps tk → sound_tick ps (duelStep now t tk a).
Proof.
  intros Ht Ha (Hlo & Hwi & Hres & Hhas). unfold duelStep.
  case_bool_decide as Hlost; [done|].
  destruct (determineWinner_sides a t) as [Hcap Hsides].
  set (r := determineWinner a t) in *.
  assert (∃ w l, winner r = Some w ∧ loser r = Some l ∧
                 w ∈ id <$> ps ∧ l ∈ id <$> ps) as (w & l & Hw & Hl & Hwin & Hlin).
  { destruct Hsides as [[-> ->]|[-> ->]]; eexists _, _;
      split_and!; try done; by apply list_elem_of_fmap_2. }
  set (r' := if bool_decide (winner r = Some (id a)) then _ else r).
  assert (captured r' = false ∧ winner r' = winner r ∧ loser r' = loser r)
    as (Hcap' & Hw' & Hl').
  { unfold r'. by destruct (bool_decide _). }
  rewrite Hw, Hl. split_and!; simpl.
  - by apply NoDup_set_add.
  - by apply NoDup_set_add.
  - intros x [Hx| ->%list_elem_of_singleton]%elem_of_app; [by apply Hres|].
    split; [done|]. exists w, l. by rewrite Hw', Hl'.
  - intros k [->|Hk]%elem_of_set_add.
    + exists r'. split; [|congruence]. apply elem_of_app. right. left.
    + destruct (Hhas k Hk) as (x & Hx & Hxl). exists x. split; [|done].
      apply elem_of_app. by left.
Qed.

Lemma processGroup_sound (now : Z) (ps : list Player) (tk : Tick)
    (g : string * list Player) :
  (∀ a, a ∈ g.2 → a ∈ ps) → g.2 ≠ [] →
  sound_tick ps tk → sound_tick ps (processGroup now ps tk g).
Proof.
  intros Hg Hne Htk. unfold processGroup.
  destruct (players_get g.1 ps) as [t|] eqn:Hget; [|done].
  apply players_get_Some in Hget as [Ht Hid].
  destruct (inPit t); simpl; [|done].
  destruct (1 <? length g.2)%nat.
  - destruct Htk as (Hlo & Hwi & Hres & Hhas).
    destruct (gang_fold_sound now ps t g.2 (add_loser g.1 tk))
      as (Hlo' & Hwi' & Hres' & Hnew); try done.
    { simpl. by apply NoDup_set_add. }
    split_and!; try done.
    + rewrite Hlo'. simpl. by apply NoDup_set_add.
    + intros k Hk. rewrite Hlo' in Hk. simpl in Hk.
      apply elem_of_set_add in Hk as [->|Hk].
      * destruct (Hnew Hne) as (x & Hx & Hxl). exists x.
        split; [done|]. by rewrite Hxl, Hid.
      * destruct (Hhas k Hk) as (x & Hx & Hxl). exists x. split; [|done].
        apply (gang_extends now t g.2 (add_loser g.1 tk)). done.
  - destruct g.2 as [|a l] eqn:E; [done|].
    apply duelStep_sound; try done. apply Hg. left.
Qed.

Lemma resolve_fold_sound (now : Z) (ps : list Player) (gs : list (string * list Player))
    (tk : Tick) :
  (∀ g a, g ∈ gs → a ∈ g.2 → a ∈ ps) → (∀ g, g ∈ gs → g.2 ≠ []) →
  sound_tick ps tk → sound_tick ps (fold_left (processGroup now ps) gs tk).
Proof.
  revert tk. induction gs as [|g gs IH]; intros tk Hin Hne Htk; simpl; [done|].
  apply IH.
  - intros g' a Hg'. apply Hin. by right.
  - intros g' Hg'. apply Hne. by right.
  - apply processGroup_sound; [|apply Hne; left|done].
    intros a Ha. apply (Hin g); [left|done].
Qed.

Lemma attackersOf_elem (k : string) (ps : list Player) (a : Player) :
  a ∈ attackersOf k ps ↔ a ∈ ps ∧ attacking a = true ∧ actionTarget a = Some k.
Proof. unfold attackersOf. by rewrite list_elem_of_filter, (comm and). Qed.

Lemma resolve_sound (now : Z) (ps : list Player) (rv : gmap string Revenge) :
  sound_tick ps (resolve now ps rv).
Proof.
  destruct (attacksByTarget_spec ps) as [_ Hspec].
  apply resolve_fold_sound.
  - intros [k l] a Hg Ha. apply Hspec in Hg as [-> _].
    simpl in Ha. by apply attackersOf_elem in Ha as [? _].
  - intros [k l] [_ ?]%Hspec. done.
  - split_and!; simpl; try apply NoDup_nil_2.
    + intros r Hr. by apply elem_of_nil in Hr.
    + intros k Hk. by apply elem_of_nil in Hk.
Qed.

(** *** The loop over the losers *)

Lemma find_alter_first_other {A} (P Q : A → bool) (f : A → A) (l : list A) :
  (∀ x, Q x = true → P x = false ∧ P (f x) = false) →
  find P (alter_first Q f l) = find P l.
Proof.
  intros HQ. induction l as [|x l IH]; simpl; [done|].
  destruct (Q x) eqn:E; simpl.
  - destruct (HQ x E) as [-> ->]. done.
  - destruct (P x); [done|apply IH].
Qed.

Lemma lostBy_other (k k' : string) (r : Result) :
  k ≠ k' → lostBy k' r = true → lostBy k r = false.
Proof.
  unfold lostBy. intros Hne H. apply bool_decide_eq_true in H.
  apply bool_decide_eq_false. congruence.
Qed.

Lemma defeat_id (pts : Z) (clan : option string) (p : Player) :
  id (defeat pts clan p) = id p.
Proof. done. Qed.

Lemma loserStep_other (now : Z) (st : Pit) (k k' : string) :
  k ≠ k' →
  find (lostBy k) (battle (loserStep now st k')) = find (lostBy k) (battle st) ∧
  id <$> players (loserStep now st k') = id <$> players st ∧
  players_get k (players (loserStep now st k')) = players_get k (players st).
Proof.
  intros Hne. unfold loserStep.
  destruct (players_get k' (players st)) as [l|]; [|done].
  destruct (_ ≫= _) as [wp|]; simpl.
  - destruct (Z.max 0 (points l - 1) =? 0); simpl.
    + rewrite players_alter_ids, players_get_alter by done.
      rewrite bool_decide_eq_false_2 by done. split_and!; try done.
      apply find_alter_first_other. intros x Hx.
      split; by eapply lostBy_other.
    + rewrite players_alter_ids, players_get_alter by done.
      by rewrite bool_decide_eq_false_2.
  - rewrite players_alter_ids, players_get_alter by done.
    by rewrite bool_decide_eq_false_2.
Qed.

Lemma loser_loop_other (now : Z) (done_ : list string) (st : Pit) (k : string) :
  k ∉ done_ →
  find (lostBy k) (battle (fold_left (loserStep now) done_ st))
    = find (lostBy k) (battle st) ∧
  id <$> players (fold_left (loserStep now) done_ st) = id <$> players st ∧
  players_get k (players (fold_left (loserStep now) done_ st))
    = players_get k (players st).
Proof.
  revert st. induction done_ as [|k' ks IH]; intros st Hk; simpl; [done|].
  apply not_elem_of_cons in Hk as [Hne Hk].
  destruct (IH (loserStep now st k') Hk) as (-> & -> & ->).
  by apply loserStep_other.
Qed.

Lemma loser_loop_ids (now : Z) (ks : list string) (st : Pit) :
  id <$> players (fold_left (loserStep now) ks st) = id <$> players st.
Proof.
  revert st. induction ks as [|k' ks IH]; intros st; simpl; [done|].
  rewrite IH. unfold loserStep.
  destruct (players_get k' (players st)) as [l|]; [|done].
  destruct (_ ≫= _) as [wp|]; simpl; [destruct (_ =? 0); simpl|];
    by rewrite players_alter_ids.
Qed.


Lemma processAllAttacks_unfold (now : Z) (st : Pit) :
  processAllAttacks now st =
    fold_left (winnerStep (resolve now (players st) (revenge st)))
      (winners (resolve now (players st) (revenge st)))
      (fold_left (loserStep now) (losers (resolve now (players st) (revenge st)))
         (resolved now st)).
Proof. reflexivity. Qed.



(** *** The loop over the winners, and the outcome of a pass *)

Lemma loserStep_same (now : Z) (st : Pit) (k : string) (l : Player) :
  players_get k (players st) = Some l →
  ∃ clan,
    players_get k (players (loserStep now st k))
    = Some (defeat (Z.max 0 (points l - 1)) clan l).
Proof.
  intros Hl. unfold loserStep. rewrite Hl.
  destruct (_ ≫= _) as [wp|]; simpl; [destruct (_ =? 0); simpl|];
    rewrite players_get_alter, bool_decide_eq_true_2, Hl by done; by eexists.
Qed.

Lemma loser_loop_same (now : Z) (ks : list string) (st : Pit) (k : string) (l : Player) :
  NoDup ks → k ∈ ks →
  players_get k (players st) = Some l →
  ∃ clan,
    players_get k (players (fold_left (loserStep now) ks st))
    = Some (defeat (Z.max 0 (points l - 1)) clan l).
Proof.
  revert st. induction ks as [|k' ks IH]; intros st Hnd Hk Hl; simpl.
  { by apply elem_of_nil in Hk. }
  apply NoDup_cons in Hnd as [Hk' Hnd].
  destruct (decide (k = k')) as [->|Hne].
  - destruct (loserStep_same now st k' l Hl) as [clan Hstep].
    exists clan.
    destruct (loser_loop_other now ks (loserStep now st k') k' Hk') as (_ & _ & ->).
    done.
  - apply IH; [done| |].
    + apply elem_of_cons in Hk as [?|?]; done.
    + by destruct (loserStep_other now st k k' Hne) as (_ & _ & ->).
Qed.

Lemma reward_id (bonus : Z) (p : Player) : id (reward bonus p) = id p.
Proof. done. Qed.

Lemma winnerStep_get (tk : Tick) (st : Pit) (k w : string) :
  players_get k (players (winnerStep tk st w)) =
    if bool_decide (k = w ∧ w ∉ losers tk)
    then reward (default 0 (winnerBonuses tk !! w)) <$> players_get k (players st)
    else players_get k (players st).
Proof.
  unfold winnerStep.
  destruct (players_get w (players st)) as [p|] eqn:Hw.
  - destruct (decide (w ∈ losers tk)) as [Hin|Hin].
    + rewrite (bool_decide_eq_true_2 _ Hin).
      rewrite bool_decide_eq_false_2; [done|]. by intros [_ ?].
    + rewrite (bool_decide_eq_false_2 _ Hin). simpl.
      rewrite players_get_alter by done.
      destruct (decide (k = w)) as [->|Hne].
      * by rewrite !bool_decide_eq_true_2.
      * rewrite (bool_decide_eq_false_2 (k = w)) by done.
        rewrite bool_decide_eq_false_2; [done|]. by intros [? _].
  - case_bool_decide as H; [|done]. destruct H as [-> _]. by rewrite Hw.
Qed.

Lemma winner_loop_get (tk : Tick) (ws : list string) (st : Pit) (k : string) :
  NoDup ws →
  players_get k (players (fold_left (winnerStep tk) ws st)) =
    if bool_decide (k ∈ ws ∧ k ∉ losers tk)
    then reward (default 0 (winnerBonuses tk !! k)) <$> players_get k (players st)
    else players_get k (players st).
Proof.
  revert st. induction ws as [|w ws IH]; intros st Hnd; cbn [fold_left].
  { rewrite bool_decide_eq_false_2; [done|]. intros [H _]. by apply elem_of_nil in H. }
  apply NoDup_cons in Hnd as [Hw Hnd]. rewrite (IH _ Hnd), winnerStep_get.
  destruct (decide (k = w)) as [->|Hne].
  - rewrite (bool_decide_eq_false_2 (w ∈ ws ∧ _)) by (by intros [? _]).
    destruct (decide (w ∈ losers tk)) as [Hin|Hin].
    + rewrite (bool_decide_eq_false_2 (w = w ∧ _)) by (by intros [_ ?]).
      by rewrite (bool_decide_eq_false_2 (w ∈ w :: ws ∧ _)) by (by intros [_ ?]).
    + rewrite (bool_decide_eq_true_2 (w = w ∧ _)) by done.
      rewrite (bool_decide_eq_true_2 (w ∈ w :: ws ∧ _)); [done|].
      split; [left|done].
  - rewrite (bool_decide_eq_false_2 (k = w ∧ _)) by (by intros [? _]).
    destruct (decide (k ∈ ws ∧ k ∉ losers tk)) as [[H1 H2]|H].
    + rewrite (bool_decide_eq_true_2 (k ∈ ws ∧ _)) by done.
      rewrite (bool_decide_eq_true_2 (k ∈ w :: ws ∧ _)); [done|].
      split; [by right|done].
    + rewrite (bool_decide_eq_false_2 _ H).
      rewrite (bool_decide_eq_false_2 (k ∈ w :: ws ∧ _)); [done|].
      intros [[?|?]%elem_of_cons ?]; [done|]. by apply H.
Qed.

(** What a pass does to the session [k]: a loser is defeated once, a winner
    that is not a loser is rewarded once, and nobody else is touched. *)
Lemma pass_outcome (now : Z) (st : Pit) (k : string) (p : Player) :
  players_get k (players st) = Some p →
  let tk := resolve now (players st) (revenge st) in
  (k ∈ losers tk →
   ∃ clan, players_get k (players (processAllAttacks now st))
           = Some (defeat (Z.max 0 (points p - 1)) clan p)) ∧
  (k ∉ losers tk → k ∈ winners tk →
   players_get k (players (processAllAttacks now st))
   = Some (reward (default 0 (winnerBonuses tk !! k)) p)) ∧
  (k ∉ losers tk → k ∉ winners tk →
   players_get k (players (processAllAttacks now st)) = Some p).
Proof.
  intros Hp tk. rewrite processAllAttacks_unfold. fold tk.
  destruct (resolve_sound now (players st) (revenge st)) as (Hlo & Hwi & _ & _).
  fold tk in Hlo, Hwi. rewrite winner_loop_get by done.
  split_and!.
  - intros Hk. rewrite bool_decide_eq_false_2 by (by intros [_ ?]).
    by apply loser_loop_same.
  - intros Hk Hw. rewrite bool_decide_eq_true_2 by done.
    destruct (loser_loop_other now (losers tk) (resolved now st) k Hk) as (_ & _ & ->).
    simpl. by rewrite Hp.
  - intros Hk Hw. rewrite bool_decide_eq_false_2 by (by intros [? _]).
    destruct (loser_loop_other now (losers tk) (resolved now st) k Hk) as (_ & _ & ->).
    done.
Qed.

(** *** Gang attacks *)






Lemma loserStep_verdicts (now : Z) (st : Pit) (k : string) :
  verdict <$> battle (loserStep now st k) = verdict <$> battle st.
Proof.
  unfold loserStep. destruct (players_get k (players st)) as [l|]; [|done].
  destruct (_ ≫= _) as [wp|]; simpl; [|done].
  destruct (_ =? 0); simpl; [|done]. by apply alter_first_ids.
Qed.

Lemma winnerStep_verdicts (tk : Tick) (st : Pit) (w : string) :
  verdict <$> battle (winnerStep tk st w) = verdict <$> battle st.
Proof.
  unfold winnerStep. destruct (players_get w (players st)) as [p|]; [|done].
  destruct (bool_decide _); simpl; [done|]. by apply alter_first_ids.
Qed.

(** The winner, the loser and the reason of every result are those the
    resolution loop recorded. *)
Lemma pass_verdicts (now : Z) (st : Pit) :
  verdict <$> battle (processAllAttacks now st)
  = verdict <$> results (resolve now (players st) (revenge st)).
Proof.
  rewrite processAllAttacks_unfold.
  set (tk := resolve now (players st) (revenge st)).
  transitivity (verdict <$> battle (fold_left (loserStep now) (losers tk) (resolved now st))).
  - generalize (fold_left (loserStep now) (losers tk) (resolved now st)).
    induction (winners tk) as [|w ws IH]; intros s; simpl; [done|].
    by rewrite IH, winnerStep_verdicts.
  - change (results tk) with (battle (resolved now st)).
    generalize (resolved now st).
    induction (losers tk) as [|k ks IH]; intros s; simpl; [done|].
    by rewrite IH, loserStep_verdicts.
Qed.







(** *** Losers of a pass *)





(** * Further properties of the handlers *)

(** ** Duels *)

(** X1. A target that has a pending attack on somebody else loses to its
    attacker, whatever the draw numbers, the attack types and the times: the
    result names the attacker the winner, for the reason "caught attacking". *)
Lemma caught_attacking (a t : Player) :
  action t = Some Attack → actionTarget t ≠ Some (id a) →
  verdict (determineWinner a t) = (Some (id a), Some (id t), "caught attacking").
Proof.
  intros Ha Ht. unfold determineWinner, isAttack.
  rewrite Ha, bool_decide_eq_true_2 by done.
  destruct (targets (actionTarget t) (id a)) eqn:E.
  - by apply targets_spec in E.
  - done.
Qed.

Lemma caught_attacking_witness :
  verdict (determineWinner (idle "a" "A" 10 5) (attacks "x" Distance 3 (idle "t" "T" 10 9)))
  = (Some "a", Some "t", "caught attacking").
Proof.
  apply (caught_attacking (idle "a" "A" 10 5) (attacks "x" Distance 3 (idle "t" "T" 10 9))).
  - reflexivity.
  - simpl. discriminate.
Defined.

(** X2. [determineWinner] always decides: its result names one of the two
    sessions the winner and the other the loser, shows the attacker and the
    target with their draw numbers, and is flagged neither as a revenge nor as
    a capture. The attack type it shows is the attacker's, except when the
    target wins a mutual attack with distance against melee, where the result
    may show the target's. *)
Lemma determineWinner_report (a t : Player) :
  let r := determineWinner a t in
  attacker r = brief a ∧ defender r = brief t ∧
  attackerNumber r = playerNumber a ∧ defenderNumber r = playerNumber t ∧
  isRevenge r = false ∧ captured r = false ∧
  ((winner r = Some (id a) ∧ loser r = Some (id t) ∧ resAttackType r = attackType a) ∨
   (winner r = Some (id t) ∧ loser r = Some (id a) ∧
    (resAttackType r = attackType a ∨
     (resAttackType r = attackType t ∧ reason r = "distance beats melee")))).
Proof.
  unfold determineWinner.
  repeat (case_match; simpl); naive_solver.
Qed.

(** ** The leaderboard and the pit list *)

Lemma insertByPoints_Permutation (p : Player) (l : list Player) :
  insertByPoints p l ≡ₚ p :: l.
Proof.
  induction l as [|q l IH]; simpl; [done|].
  case_match; [|done]. rewrite IH. apply Permutation_swap.
Qed.

Lemma sortByPoints_Permutation (ps : list Player) : sortByPoints ps ≡ₚ ps.
Proof.
  induction ps as [|p ps IH]; simpl; [done|].
  by rewrite insertByPoints_Permutation, IH.
Qed.

Lemma insertByPoints_sorted (p : Player) (l : list Player) :
  StronglySorted (λ x y, points y ≤ points x) l →
  StronglySorted (λ x y, points y ≤ points x) (insertByPoints p l).
Proof.
  induction 1 as [|q l Hl IH Hq]; simpl.
  - repeat constructor.
  - destruct (points p <? points q) eqn:E.
    + apply Z.ltb_lt in E. constructor; [done|].
      apply Forall_forall. intros x Hx.
      rewrite insertByPoints_Permutation in Hx.
      apply elem_of_cons in Hx as [->|Hx]; [lia|].
      by eapply Forall_forall in Hq.
    + apply Z.ltb_ge in E. constructor; [by constructor|].
      constructor; [done|]. eapply Forall_impl; [done|]. simpl. lia.
Qed.

(** X3. [getLeaderboard] lists every session exactly once, most points
    first. *)
Lemma leaderboard_sorted (ps : list Player) :
  StronglySorted by_points (getLeaderboard ps) ∧
  getLeaderboard ps ≡ₚ leaderboardEntry <$> ps.
Proof.
  split.
  - unfold getLeaderboard.
    assert (StronglySorted (λ x y, points y ≤ points x) (sortByPoints ps)) as H.
    { induction ps; simpl; [constructor|]. by apply insertByPoints_sorted. }
    induction H as [|q l Hl IH Hq]; csimpl; constructor; [done|].
    apply Forall_fmap. eapply Forall_impl; [done|]. done.
  - unfold getLeaderboard. by rewrite sortByPoints_Permutation.
Qed.

Lemma pit_flag (now : Z) (rv : gmap string Revenge) (ps : list Player) (k : string)
    (e : PitEntry) :
  e ∈ getPitPlayers now rv ps k →
  (pitIsRevenge e = true ↔
   ∃ me r, players_get k ps = Some me ∧ rv !! odIdentifier me = Some r ∧
           now < expiresAt r ∧ revengeOn r = pitOdIdentifier e).
Proof.
  unfold getPitPlayers. intros (p & -> & _)%list_elem_of_fmap. simpl.
  rewrite bool_decide_eq_true.
  destruct (players_get k ps) as [me|]; simpl.
  2: { split. - intros H. discriminate H. - intros (? & ? & H & _). discriminate H. }
  destruct (rv !! odIdentifier me) as [r|] eqn:Erv; simpl.
  2: { split. - intros H. discriminate H. - intros (? & ? & [= <-] & H & _). congruence. }
  destruct (expiresAt r >? now) eqn:E.
  - apply Z.gtb_lt in E. split.
    + intros [= Hp]. by exists me, r.
    + intros (? & ? & [= <-] & H & _ & <-). congruence.
  - rewrite Z.gtb_ltb in E. apply Z.ltb_ge in E. split.
    + intros H. discriminate H.
    + intros (? & r' & [= <-] & H & ? & _). assert (r' = r) by congruence. subst. lia.
Qed.

(** X4. [getPitPlayers] lists the sessions that are in the pit, in the
    order of the registry, and flags an entry as a revenge target exactly when
    the identity of the requesting session holds a claim on the identity of
    that entry that has not expired; a requester the registry does not know
    sees no flag. *)
Lemma pit_list (now : Z) (rv : gmap string Revenge) (ps : list Player) (k : string) :
  pitId <$> getPitPlayers now rv ps k = id <$> filter (λ p, inPit p = true) ps ∧
  ∀ e, e ∈ getPitPlayers now rv ps k →
    (pitIsRevenge e = true ↔
     ∃ me r, players_get k ps = Some me ∧ rv !! odIdentifier me = Some r ∧
             now < expiresAt r ∧ revengeOn r = pitOdIdentifier e).
Proof.
  split.
  - unfold getPitPlayers. by rewrite <- list_fmap_compose.
  - intros e. apply pit_flag.
Qed.

(** ** Character creation and the store *)


Lemma lookup_row_app (k : string) (t t' : list Row) :
  lookup_row k (t ++ t') =
  match lookup_row k t with Some r => Some r | None => lookup_row k t' end.
Proof.
  unfold lookup_row. induction t as [|r t IH]; simpl; [done|].
  by case_bool_decide.
Qed.

(** X6. On a server with a store [createNewPlayer] touches the row of the
    given identity only. For an identity the store does not know it adds a
    row with 10 points, the drawn number and the validated image. For a known
    one (the ON CONFLICT branch) it replaces the image only: points, number,
    clan and owner of the stored row stay, although the value returned to the
    handler says 10 points. *)
Lemma createNewPlayer_store (r : Q) (k nm : string) (img : option Z) (t : list Row) :
  let out := createNewPlayer r k nm img (Some t) in
  ∃ t', out.1 = Some t' ∧
    (∀ k', k' ≠ k → lookup_row k' t' = lookup_row k' t) ∧
    match lookup_row k t with
    | None =>
        ∃ row, lookup_row k t' = Some row ∧
          row_points row = 10 ∧ row_points row = persPoints out.2 ∧
          player_number row = persPlayerNumber out.2 ∧
          character_image row = validImage img ∧ clan_name row = None
    | Some old =>
        ∃ row, lookup_row k t' = Some row ∧
          row_points row = row_points old ∧ player_number row = player_number old ∧
          clan_name row = clan_name old ∧ owner_id row = owner_id old ∧
          character_image row = validImage img ∧
          persPoints out.2 = 10
    end.
Proof.
  simpl. eexists. split; [done|]. unfold insert_player.
  destruct (lookup_row k t) as [old|] eqn:E.
  - split.
    + intros k' Hk. rewrite lookup_row_update by done.
      by rewrite bool_decide_eq_false_2.
    + rewrite lookup_row_update by done.
      rewrite bool_decide_eq_true_2, E by done. simpl.
      eexists. split; [done|]. done.
  - split.
    + intros k' Hk. rewrite lookup_row_app.
      destruct (lookup_row k' t); [done|].
      unfold lookup_row. simpl. by rewrite bool_decide_eq_false_2 by done.
    + rewrite lookup_row_app, E. unfold lookup_row. simpl.
      rewrite bool_decide_eq_true_2 by done. eexists. split; [done|]. done.
Qed.

(** X7. [recruitPlayer] succeeds only for a stored character with no
    point left (0 or less) and no clan; it then makes that character a member
    of the clan, owned by the recruiter, returns its name, and changes no
    other row and no points. When it fails, the store is as it was. *)
Lemma recruitPlayer_spec (k clan recruiterId : string) (db : option (list Row)) :
  match (recruitPlayer k clan recruiterId db).2 with
  | RecruitDone nm =>
      ∃ t t' target,
        db = Some t ∧ (recruitPlayer k clan recruiterId db).1 = Some t' ∧
        lookup_row k t = Some target ∧ nm = row_name target ∧
        row_points target ≤ 0 ∧ truthy (clan_name target) = false ∧
        lookup_row k t' = Some (set_row_owner (Some clan) (Some recruiterId) target) ∧
        (∀ k', k' ≠ k → lookup_row k' t' = lookup_row k' t) ∧
        total_points t' = total_points t
  | RecruitFailed _ => (recruitPlayer k clan recruiterId db).1 = db
  end.
Proof.
  unfold recruitPlayer. destruct db as [t|]; [|done].
  destruct (lookup_row k t) as [target|] eqn:E; [|done].
  destruct (row_points target >? 0) eqn:Hp; [done|].
  destruct (truthy (clan_name target)) eqn:Hc; [done|]. simpl.
  exists t, (update_where k (set_row_owner (Some clan) (Some recruiterId)) t), target.
  split_and!; try done.
  - rewrite Z.gtb_ltb in Hp. apply Z.ltb_ge in Hp. lia.
  - rewrite lookup_row_update by done.
    by rewrite bool_decide_eq_true_2, E.
  - intros k' Hk. rewrite lookup_row_update by done.
    by rewrite bool_decide_eq_false_2.
  - apply total_points_owner.
Qed.

(** X8. [updateDailyChallenge] never lowers a stored daily counter: each
    becomes the larger of the stored and the given value. Points, clan and
    owner of that row, and every other row, are as before. *)
Lemma updateDailyChallenge_monotone (k : string) (revengeKills maxStreak : Z)
    (t : list Row) :
  ∃ t', updateDailyChallenge k revengeKills maxStreak (Some t) = Some t' ∧
    od_identifier <$> t' = od_identifier <$> t ∧
    total_points t' = total_points t ∧
    (∀ k', k' ≠ k → lookup_row k' t' = lookup_row k' t) ∧
    (∀ r, lookup_row k t = Some r →
       ∃ r', lookup_row k t' = Some r' ∧
         daily_revenge_kills r' = Z.max (daily_revenge_kills r) revengeKills ∧
         daily_max_streak r' = Z.max (daily_max_streak r) maxStreak ∧
         daily_revenge_kills r ≤ daily_revenge_kills r' ∧
         daily_max_streak r ≤ daily_max_streak r' ∧
         row_points r' = row_points r ∧ clan_name r' = clan_name r ∧
         owner_id r' = owner_id r).
Proof.
  eexists. split; [done|]. split_and!.
  - by apply update_where_keys.
  - unfold update_where. induction t as [|r t IH]; simpl; [done|].
    rewrite IH. by case_bool_decide.
  - intros k' Hk. rewrite lookup_row_update by done. by rewrite bool_decide_eq_false_2.
  - intros r Hr. rewrite lookup_row_update by done.
    rewrite bool_decide_eq_true_2, Hr by done. eexists. split; [done|].
    simpl. split_and!; try done; lia.
Qed.

(** ** The defend timer *)

Lemma sweep_changed (now : Z) (ps : list Player) :
  (sweep now ps).2 = false ↔ (sweep now ps).1 = ps.
Proof.
  unfold sweep. simpl. induction ps as [|p ps IH]; csimpl; [done|].
  destruct (stale now p) eqn:E; simpl.
  - split; [done|]. intros [= Hp _]. unfold stale in E.
    apply andb_prop in E as [Ha%bool_decide_eq_true _].
    rewrite <- Hp in Ha. done.
  - rewrite IH. split; [by intros ->|]. by intros [= ?].
Qed.

Lemma sweep_idempotent (now : Z) (ps : list Player) :
  sweep now (sweep now ps).1 = ((sweep now ps).1, false).
Proof.
  unfold sweep. simpl. f_equal.
  - rewrite <- list_fmap_compose. apply list_fmap_ext. intros _ p _. simpl.
    destruct (stale now p) eqn:E; [|by rewrite E]. done.
  - induction ps as [|p ps IH]; csimpl; [done|]. rewrite IH, orb_false_r.
    destruct (stale now p) eqn:E; [|done]. done.
Qed.

Lemma players_get_fmap (k : string) (f : Player → Player) (ps : list Player) :
  (∀ p, id (f p) = id p) →
  players_get k (f <$> ps) = f <$> players_get k ps.
Proof.
  intros Hf. unfold players_get. induction ps as [|p ps IH]; csimpl; [done|].
  rewrite Hf. by case_bool_decide.
Qed.

(** X9. The body of the defend timer reports a change exactly when it
    changed the registry, and run again at the same time it changes nothing.
    It keeps the keys; a session it alters was defending since more than
    10000 ms and loses its action and its action time, nothing else. *)
Lemma sweep_spec (now : Z) (ps : list Player) :
  ((sweep now ps).2 = false ↔ (sweep now ps).1 = ps) ∧
  sweep now (sweep now ps).1 = ((sweep now ps).1, false) ∧
  id <$> (sweep now ps).1 = id <$> ps ∧
  (∀ p', p' ∈ (sweep now ps).1 →
     ∃ p, p ∈ ps ∧ points p' = points p ∧ inPit p' = inPit p ∧ streak p' = streak p ∧
          actionTarget p' = actionTarget p ∧ attackType p' = attackType p ∧
          (p' = p ∨
           action p = Some Defend ∧ action p' = None ∧ actionTime p' = None ∧
           ∃ t, actionTime p = Some t ∧ t ≠ 0 ∧ 10000 < now - t)).
Proof.
  split_and!.
  - apply sweep_changed.
  - apply sweep_idempotent.
  - unfold sweep. cbn [fst]. rewrite <- list_fmap_compose.
    apply list_fmap_ext. intros _ p _. unfold compose. by destruct (stale now p).
  - unfold sweep. cbn [fst]. intros p' (p & -> & Hp)%list_elem_of_fmap.
    exists p. split; [done|].
    destruct (stale now p) eqn:E; [|split_and!; try done; by left].
    split_and!; try done. right. unfold stale in E.
    apply andb_prop in E as [Ha%bool_decide_eq_true E].
    destruct (actionTime p) as [t|]; [|done].
    apply andb_prop in E as [Ht%negb_true_iff%Z.eqb_neq Hn%Z.gtb_lt].
    split_and!; try done. by exists t.
Qed.

(** X10. A session that is idle in the pit and declares a defence at time
    [t] is still defending after a run of the timer at time [now] when
    [now - t <= 10000], and idle again when [now - t > 10000]; a defence
    declared at time 0 never expires. Points, streak and pit membership are as
    before. *)
Lemma defend_expires (t now : Z) (k : string) (ps : list Player) (p : Player) :
  players_get k ps = Some p → inPit p = true → action p = None →
  ∃ p', players_get k (sweep now (onDefend t k ps)).1 = Some p' ∧
        inPit p' = true ∧ points p' = points p ∧ streak p' = streak p ∧
        action p' = (if bool_decide (t ≠ 0 ∧ 10000 < now - t) then None else Some Defend).
Proof.
  intros Hp Hin Ha. unfold onDefend. rewrite Hp, Hin, Ha. simpl.
  unfold sweep. simpl. rewrite players_get_fmap by (intros; by case_match).
  rewrite players_get_alter by done. rewrite bool_decide_eq_true_2, Hp by done. simpl.
  eexists. split; [done|].
  unfold stale. simpl. rewrite Hin.
  destruct (decide (t = 0)) as [->|Ht].
  - done.
  - rewrite (proj2 (Z.eqb_neq t 0)) by done. simpl.
    destruct (now - t >? 10000) eqn:E; rewrite Z.gtb_ltb in E.
    + apply Z.ltb_lt in E. case_bool_decide as H; [done|]. destruct H; split; [done|lia].
    + apply Z.ltb_ge in E. case_bool_decide as H; [|done]. destruct H; lia.
Qed.

Lemma defend_expires_witness :
  ∃ p', players_get "a" (sweep 20000 (onDefend 1000 "a" [idle "a" "A" 10 5])).1 = Some p' ∧
        inPit p' = true ∧ points p' = 10 ∧ streak p' = 0 ∧ action p' = None.
Proof.
  apply (defend_expires 1000 20000 "a" [idle "a" "A" 10 5] (idle "a" "A" 10 5));
    reflexivity.
Defined.

(** ** Heckles *)

Lemma removelast_take {A} (l : list A) : removelast l = take (length l - 1) l.
Proof.
  induction l as [|x l IH]; [done|].
  destruct l as [|y l]; [done|].
  change (removelast (x :: y :: l)) with (x :: removelast (y :: l)).
  rewrite IH. simpl. by rewrite Nat.sub_0_r.
Qed.

Lemma keep_last_three_take (fuel : nat) (heckles : list Heckle) :
  (length heckles - 3 ≤ fuel)%nat → keep_last_three fuel heckles = take 3 heckles.
Proof.
  revert heckles. induction fuel as [|fuel IH]; intros l Hl; simpl.
  - rewrite take_ge by lia. done.
  - destruct (3 <? length l)%nat eqn:E.
    + apply Nat.ltb_lt in E. rewrite IH.
      * rewrite removelast_take, take_take. f_equal. lia.
      * rewrite removelast_take, length_take. lia.
    + apply Nat.ltb_ge in E. by rewrite take_ge by lia.
Qed.

Lemma length_substring (n m : nat) (s : string) :
  (String.length (String.substring n m s) ≤ m)%nat.
Proof.
  revert n m. induction s as [|c s IH]; intros [|n] [|m]; simpl; try lia.
  - specialize (IH 0%nat m). lia.
  - apply (IH n 0%nat).
  - apply (IH n (S m)).
Qed.

Lemma onHeckle_cases (trim : string → string) (now : Z) (k message : string)
    (ps : list Player) (heckles : list Heckle) :
  (∃ ans, ans ≠ Used ∧ onHeckle trim now k message ps heckles = (ps, heckles, ans)) ∨
  (∃ p, players_get k ps = Some p ∧ canHeckle p = true ∧
        String.substring 0 100 (trim message) ≠ "" ∧
        onHeckle trim now k message ps heckles
        = (players_alter k (set_canHeckle false) ps,
           take 3 ({| heckleName := name p;
                      heckleMessage := String.substring 0 100 (trim message);
                      heckleImage := characterImage p; timestamp := now |} :: heckles),
           Used)).
Proof.
  unfold onHeckle.
  destruct (players_get k ps) as [p|] eqn:Hp;
    [|left; by exists (Refused "You must win a battle to heckle!")].
  destruct (canHeckle p) eqn:Hc;
    [|left; by exists (Refused "You must win a battle to heckle!")].
  cbn [negb]. case_bool_decide as Hm; [left; by exists Silent|].
  right. exists p. split_and!; try done.
  rewrite keep_last_three_take by lia. done.
Qed.

(** X11. The [heckle] handler. When it accepts, the sender was allowed to
    heckle, the new heckle comes first in the feed with the sender's name and
    image and the time, the feed keeps its three newest entries, the message
    is the trimmed text cut to 100 characters and is not empty, the sender
    loses the right to heckle and no other session changes. When it refuses
    or ignores the message, registry and feed are as they were. *)
Lemma heckle_spec (trim : string → string) (now : Z) (k message : string)
    (ps : list Player) (heckles : list Heckle) :
  let out := onHeckle trim now k message ps heckles in
  match out.2 with
  | Used =>
      ∃ p h,
        players_get k ps = Some p ∧ canHeckle p = true ∧
        out.1.2 = take 3 (h :: heckles) ∧
        heckleName h = name p ∧ heckleImage h = characterImage p ∧ timestamp h = now ∧
        heckleMessage h = String.substring 0 100 (trim message) ∧
        (0 < String.length (heckleMessage h) ≤ 100)%nat ∧
        players_get k out.1.1 = Some (set_canHeckle false p) ∧
        (∀ k', k' ≠ k → players_get k' out.1.1 = players_get k' ps)
  | Silent | Refused _ => out.1 = (ps, heckles)
  end.
Proof.
  destruct (onHeckle_cases trim now k message ps heckles)
    as [(ans & Hans & ->)|(p & Hp & Hc & Hm & ->)]; cbn [fst snd].
  { by destruct ans. }
  eexists p, _. split_and!; try done.
  - cbn [heckleMessage].
    destruct (String.substring 0 100 (trim message)); [done|]. simpl. lia.
  - apply length_substring.
  - rewrite players_get_alter by done. by rewrite bool_decide_eq_true_2, Hp.
  - intros k' Hk. rewrite players_get_alter by done. by rewrite bool_decide_eq_false_2.
Qed.

(** X12. After an accepted heckle a second heckle of the same socket is
    refused, whatever its text, and changes nothing. *)
Lemma heckle_once (trim : string → string) (now now' : Z) (k message message' : string)
    (ps : list Player) (heckles : list Heckle) :
  let out := onHeckle trim now k message ps heckles in
  out.2 = Used →
  onHeckle trim now' k message' out.1.1 out.1.2
  = (out.1.1, out.1.2, Refused "You must win a battle to heckle!").
Proof.
  intros out. unfold out.
  destruct (onHeckle_cases trim now k message ps heckles)
    as [(ans & Hans & ->)|(p & Hp & Hc & Hm & ->)]; cbn [fst snd]; [done|].
  intros _. unfold onHeckle at 1.
  rewrite players_get_alter by done. by rewrite bool_decide_eq_true_2, Hp.
Qed.

Lemma heckle_once_witness :
  onHeckle (λ s, s) 2 "a" "again"
    (onHeckle (λ s, s) 1 "a" "ha" [set_canHeckle true (idle "a" "A" 10 5)] []).1.1
    (onHeckle (λ s, s) 1 "a" "ha" [set_canHeckle true (idle "a" "A" 10 5)] []).1.2
  = ((onHeckle (λ s, s) 1 "a" "ha" [set_canHeckle true (idle "a" "A" 10 5)] []).1.1,
     (onHeckle (λ s, s) 1 "a" "ha" [set_canHeckle true (idle "a" "A" 10 5)] []).1.2,
     Refused "You must win a battle to heckle!").
Proof.
  apply (heckle_once (λ s, s) 1 2 "a" "ha" "again"
           [set_canHeckle true (idle "a" "A" 10 5)] []).
  reflexivity.
Defined.

(** ** What a pass keeps *)

Lemma fold_left_id {A B} (f : A → B → A) (l : list B) (x : A) :
  (∀ y b, b ∈ l → f y b = y) → fold_left f l x = x.
Proof.
  revert x. induction l as [|b l IH]; intros x H; simpl; [done|].
  rewrite (H x b) by left. apply IH. intros y b' Hb. apply H. by right.
Qed.

Lemma resolve_nothing (now : Z) (ps : list Player) (rv : gmap string Revenge) :
  (∀ a k t, a ∈ ps → attacking a = true → actionTarget a = Some k →
            players_get k ps = Some t → inPit t = false) →
  resolve now ps rv = newTick rv.
Proof.
  intros H. unfold resolve. apply fold_left_id. intros tk [k l] Hg.
  destruct (attacksByTarget_spec ps) as [_ Hspec].
  apply Hspec in Hg as [-> Hne].
  destruct (attackersOf k ps) as [|a l] eqn:E; [done|].
  assert (a ∈ attackersOf k ps) as Ha by (rewrite E; left).
  apply attackersOf_elem in Ha as (Ha & Hatt & Htgt).
  unfold processGroup. simpl.
  destruct (players_get k ps) as [t|] eqn:Ht; [|done].
  by rewrite (H a k t).
Qed.

(** X13. A pass in which every pending attack aims at a session that is
    gone or outside the pit changes nothing and returns no result: such
    attacks stay pending. *)
Lemma pass_nothing (now : Z) (st : Pit) :
  (∀ a k t, a ∈ players st → attacking a = true → actionTarget a = Some k →
            players_get k (players st) = Some t → inPit t = false) →
  processAllAttacks now st
  = {| players := players st; revenge := revenge st; store := store st; battle := [] |}.
Proof.
  intros H. rewrite processAllAttacks_unfold. unfold resolved.
  by rewrite (resolve_nothing now _ _ H).
Qed.

Lemma pass_nothing_witness :
  processAllAttacks 1000 stray_pit = stray_pit.
Proof.
  apply (pass_nothing 1000 stray_pit).
  intros a k t Ha. apply elem_of_cons in Ha as [->|Ha].
  - intros _ [= <-] H. discriminate H.
  - apply list_elem_of_singleton in Ha as ->. intros H. discriminate H.
Defined.

Lemma claimRevenge_sane (b : bool) (a : Player) (tk : Tick) tk' :
  sane_bonuses tk → winnerBonuses tk' = (claimRevenge b a tk).1 → sane_bonuses tk'.
Proof.
  intros H E k v. rewrite E. unfold claimRevenge. destruct b; simpl; [|apply H].
  destruct (decide (k = id a)) as [->|Hk].
  - rewrite lookup_insert_eq. intros [= <-].
    destruct (winnerBonuses tk !! id a) as [v|] eqn:Ev; simpl; [|lia].
    specialize (H _ _ Ev). lia.
  - rewrite lookup_insert_ne by done. apply H.
Qed.

Lemma processGroup_sane (now : Z) (ps : list Player) (tk : Tick) (g : string * list Player) :
  sane_bonuses tk → sane_bonuses (processGroup now ps tk g).
Proof.
  intros H. unfold processGroup.
  destruct (players_get g.1 ps) as [t|]; [|done].
  destruct (inPit t); simpl; [|done].
  destruct (1 <? length g.2)%nat.
  - assert (sane_bonuses (add_loser g.1 tk)) as H' by done.
    revert H'. generalize (add_loser g.1 tk).
    induction g.2 as [|a l IH]; intros tk0 H0; simpl; [done|].
    apply IH. by eapply claimRevenge_sane.
  - destruct g.2 as [|a l]; [done|]. unfold duelStep.
    case_bool_decide; [done|]. by eapply claimRevenge_sane.
Qed.

Lemma resolve_sane (now : Z) (ps : list Player) (rv : gmap string Revenge) :
  sane_bonuses (resolve now ps rv).
Proof.
  unfold resolve.
  assert (sane_bonuses (newTick rv)) as H by (intros k v; simpl; by rewrite lookup_empty).
  revert H. generalize (newTick rv).
  induction (attacksByTarget ps) as [|g gs IH]; intros tk H; simpl; [done|].
  apply IH. by apply processGroup_sane.
Qed.

Lemma winner_loop_ids (tk : Tick) (ws : list string) (st : Pit) :
  id <$> players (fold_left (winnerStep tk) ws st) = id <$> players st.
Proof.
  revert st. induction ws as [|w ws IH]; intros st; simpl; [done|].
  rewrite IH. unfold winnerStep.
  destruct (players_get w (players st)); [|done].
  case_bool_decide; [done|]. simpl. by rewrite players_alter_ids.
Qed.

(** X14. A pass keeps the keys of the registry and, for every session, its
    identity, name, draw number and image. It never lowers a daily counter,
    takes at most one point from a session, leaves no session with negative
    points that had none, puts nobody into the pit, and leaves an action as it
    was or clears it. *)
Lemma pass_keeps (now : Z) (st : Pit) (k : string) (p : Player) :
  players_get k (players st) = Some p →
  id <$> players (processAllAttacks now st) = id <$> players st ∧
  ∃ p', players_get k (players (processAllAttacks now st)) = Some p' ∧
    odIdentifier p' = odIdentifier p ∧ name p' = name p ∧
    playerNumber p' = playerNumber p ∧ characterImage p' = characterImage p ∧
    dailyRevengeKills p ≤ dailyRevengeKills p' ∧
    dailyMaxStreak p ≤ dailyMaxStreak p' ∧
    points p - 1 ≤ points p' ∧ (0 ≤ points p → 0 ≤ points p') ∧
    (inPit p' = true → inPit p = true) ∧
    (action p' = action p ∨ action p' = None).
Proof.
  intros Hp. split.
  { rewrite processAllAttacks_unfold, winner_loop_ids, loser_loop_ids. done. }
  destruct (pass_outcome now st k p Hp) as (Hl & Hw & Ho).
  set (tk := resolve now (players st) (revenge st)) in *.
  destruct (decide (k ∈ losers tk)) as [Hin|Hout].
  - destruct (Hl Hin) as [clan ->]. eexists. split; [done|]. simpl.
    split_and!; try done; try lia. by right.
  - destruct (decide (k ∈ winners tk)) as [Hin|Hout'].
    + rewrite (Hw Hout Hin). eexists. split; [done|].
      assert (0 ≤ default 0 (winnerBonuses tk !! k)) as Hb.
      { destruct (winnerBonuses tk !! k) as [v|] eqn:Ev; simpl; [|lia].
        by apply (resolve_sane now (players st) (revenge st) k v). }
      simpl. split_and!; try done; try lia; try (case_match; lia). by right.
    + rewrite (Ho Hout Hout'). eexists. split; [done|]. split_and!; try done; try lia.
      by left.
Qed.

Lemma pass_keeps_witness :
  id <$> players (processAllAttacks 1000 sample_pit) = id <$> players sample_pit.
Proof.
  apply (pass_keeps 1000 sample_pit "t" (idle "t" "T" 1 42)). reflexivity.
Defined.

(** ** An attack on a quiet pit *)

Lemma players_alter_split (k : string) (f : Player → Player) (ps : list Player) (p : Player) :
  players_get k ps = Some p →
  ∃ l1 l2, ps = l1 ++ p :: l2 ∧ players_alter k f ps = l1 ++ f p :: l2.
Proof.
  unfold players_get, players_alter. induction ps as [|q ps IH]; simpl; [done|].
  destruct (bool_decide (id q = k)).
  - intros [= ->]. by exists [], ps.
  - intros (l1 & l2 & -> & ->)%IH. by exists (q :: l1), l2.
Qed.

Lemma group_player_idle (ps : list Player) (g : list (string * list Player)) :
  (∀ q, q ∈ ps → action q ≠ Some Attack) → fold_left group_player ps g = g.
Proof.
  intros H. apply fold_left_id. intros g' q Hq. unfold group_player, attacking, isAttack.
  rewrite (bool_decide_eq_false_2 _ (H q Hq)). by rewrite andb_false_r.
Qed.

Lemma attacksByTarget_single (l1 l2 : list Player) (a : Player) (k : string) :
  (∀ q, q ∈ l1 ++ l2 → action q ≠ Some Attack) →
  attacking a = true → actionTarget a = Some k →
  attacksByTarget (l1 ++ a :: l2) = [(k, [a])].
Proof.
  intros H Ha Hk. unfold attacksByTarget.
  rewrite fold_left_app. cbn [fold_left].
  rewrite (group_player_idle l1) by (intros q Hq; apply H, elem_of_app; by left).
  rewrite (group_player_idle l2) by (intros q Hq; apply H, elem_of_app; by right).
  unfold group_player. by rewrite Ha, Hk.
Qed.

Section duel.
Variables (now : Z) (socketId targetId : string) (ty : AttackType) (st : Pit).
Variables (p t : Player).
Hypothesis quiet : ∀ q, q ∈ players st → action q ≠ Some Attack.
Hypothesis Hp : players_get socketId (players st) = Some p.
Hypothesis Hpit : inPit p = true.
Hypothesis Ht : players_get targetId (players st) = Some t.
Hypothesis Htpit : inPit t = true.
Hypothesis Hne : targetId ≠ socketId.
Hypothesis Hnz : targetId ≠ "".

Lemma onAttack_declared :
  onAttack now socketId targetId (Some ty) st
  = (processAllAttacks now (declared now socketId targetId ty st),
     if (0 <? length (battle (processAllAttacks now (declared now socketId targetId ty st))))%nat
     then BattleResults (battleResults (processAllAttacks now (declared now socketId targetId ty st)))
     else Nothing).
Proof.
  unfold onAttack. rewrite Hp, Hpit, Ht, Htpit. cbn [negb].
  by rewrite bool_decide_eq_false_2 by done.
Qed.

Lemma declared_get (k : string) :
  players_get k (players (declared now socketId targetId ty st)) =
  if bool_decide (k = socketId) then Some (declare_attack targetId ty now p)
  else players_get k (players st).
Proof.
  unfold declared. cbn [players]. rewrite players_get_alter by done.
  case_bool_decide as Hk; [|done]. subst k. by rewrite Hp.
Qed.

Lemma declared_resolve :
  resolve now (players (declared now socketId targetId ty st)) (revenge st)
  = duelStep now t (newTick (revenge st)) (declare_attack targetId ty now p).
Proof.
  unfold resolve.
  destruct (players_alter_split socketId (declare_attack targetId ty now) _ _ Hp)
    as (l1 & l2 & Hps & Halt).
  cbn [declared players]. rewrite Halt.
  rewrite (attacksByTarget_single l1 l2 _ targetId).
  - cbn [fold_left]. unfold processGroup. cbn [fst snd].
    rewrite <- Halt. pose proof (declared_get targetId) as Hg.
    cbn [declared players] in Hg. rewrite Hg.
    rewrite bool_decide_eq_false_2, Ht, Htpit by done. done.
  - intros q Hq. apply quiet. rewrite Hps.
    apply elem_of_app in Hq as [Hq|Hq]; apply elem_of_app; [by left|right; by right].
  - unfold attacking, isAttack. cbn. rewrite Hpit. cbn.
    rewrite (bool_decide_eq_false_2 (targetId = "")) by done.
    by rewrite bool_decide_eq_true_2.
  - done.
Qed.


Lemma duel_tick :
  let a := declare_attack targetId ty now p in
  let r := determineWinner a t in
  let tk := resolve now (players (declared now socketId targetId ty st))
              (revenge (declared now socketId targetId ty st)) in
  (winner r = Some socketId ∧ loser r = Some targetId ∧
   results tk = [set_isRevenge (holdsRevenge now (revenge st) a t) r] ∧
   losers tk = [targetId] ∧ winners tk = [socketId] ∧
   default 0 (winnerBonuses tk !! socketId)
     = (if holdsRevenge now (revenge st) a t then 2 else 0) ∧
   revengeTargets tk
     = (if holdsRevenge now (revenge st) a t
        then delete (odIdentifier p) (revenge st) else revenge st)) ∨
  (winner r = Some targetId ∧ loser r = Some socketId ∧
   results tk = [r] ∧ losers tk = [socketId] ∧ winners tk = [targetId] ∧
   default 0 (winnerBonuses tk !! targetId) = 0 ∧
   revengeTargets tk = revenge st).
Proof.
  intros a r tk.
  destruct (players_get_Some _ _ _ Hp) as [_ Hidp].
  destruct (players_get_Some _ _ _ Ht) as [_ Hidt].
  assert (id a = socketId) as Hida by done.
  unfold tk. change (revenge (declared now socketId targetId ty st)) with (revenge st).
  rewrite declared_resolve. fold a. unfold duelStep.
  rewrite bool_decide_eq_false_2 by (cbn; apply not_elem_of_nil).
  fold r. cbn zeta.
  destruct (determineWinner_sides a t) as [_ [[Hw Hl]|[Hw Hl]]]; fold r in Hw, Hl.
  - left. rewrite Hw, Hl, Hida, Hidt.
    rewrite bool_decide_eq_true_2 by done. cbn [andb newTick revengeTargets].
    cbn [results losers winners winnerBonuses from_option app].
    split_and!; try done.
    + unfold claimRevenge. rewrite Hida.
      destruct (holdsRevenge now (revenge st) a t); cbn [fst]; [|done].
      by rewrite lookup_insert_eq.
    + unfold claimRevenge. by destruct (holdsRevenge now (revenge st) a t).
  - right. rewrite Hw, Hl, Hida, Hidt.
    rewrite bool_decide_eq_false_2 by congruence. cbn [andb].
    split_and!; done.
Qed.

End duel.

Lemma single_duel_pass (now : Z) (st : Pit) (res : Result) (kw kl : string) (w l : Player) :
  let tk := resolve now (players st) (revenge st) in
  results tk = [res] → losers tk = [kl] → winners tk = [kw] →
  winner res = Some kw → loser res = Some kl → kw ≠ kl →
  players_get kw (players st) = Some w → players_get kl (players st) = Some l →
  revenge (processAllAttacks now st)
    = <[odIdentifier l := {| revengeOn := odIdentifier w; expiresAt := now + 3 * 60 * 1000 |}]>
        (revengeTargets tk) ∧
  players_get kl (players (processAllAttacks now st))
    = Some (defeat (Z.max 0 (points l - 1))
              (if Z.max 0 (points l - 1) =? 0 then clanName w else clanName l) l) ∧
  players_get kw (players (processAllAttacks now st))
    = Some (reward (default 0 (winnerBonuses tk !! kw)) w).
Proof.
  intros tk Hres Hlo Hwi Hw Hl Hne Hgw Hgl.
  rewrite processAllAttacks_unfold. fold tk. rewrite Hlo, Hwi. cbn [fold_left].
  assert (find (lostBy kl) (battle (resolved now st)) = Some res) as Hfind.
  { unfold resolved. cbn [battle]. fold tk. rewrite Hres. simpl.
    unfold lostBy. by rewrite bool_decide_eq_true_2. }
  set (st1 := loserStep now (resolved now st) kl).
  assert (revenge st1
          = <[odIdentifier l := {| revengeOn := odIdentifier w;
                                   expiresAt := now + 3 * 60 * 1000 |}]> (revengeTargets tk) ∧
          players st1
          = players_alter kl
              (defeat (Z.max 0 (points l - 1))
                 (if Z.max 0 (points l - 1) =? 0 then clanName w else clanName l))
              (players st)) as [Hrv Hps].
  { unfold st1, loserStep. rewrite Hfind. cbn [players resolved mbind option_bind].
    rewrite Hgl. cbn [mbind option_bind]. rewrite Hw. cbn [mbind option_bind].
    rewrite Hgw. destruct (Z.max 0 (points l - 1) =? 0); done. }
  assert (players_get kw (players st1) = Some w) as Hgw1.
  { rewrite Hps, players_get_alter by done. by rewrite bool_decide_eq_false_2. }
  unfold winnerStep. rewrite Hgw1, Hlo.
  rewrite bool_decide_eq_false_2 by (intros ?%list_elem_of_singleton; done).
  cbn [revenge players]. split_and!.
  - done.
  - rewrite players_get_alter by done. rewrite bool_decide_eq_false_2 by done.
    rewrite Hps, players_get_alter by done. by rewrite bool_decide_eq_true_2, Hgl.
  - rewrite players_get_alter by done. by rewrite bool_decide_eq_true_2, Hgw1.
Qed.

Lemma players_get_None (k : string) (ps : list Player) :
  players_get k ps = None ↔ k ∉ id <$> ps.
Proof.
  split.
  - intros Hn Hin. destruct (players_get_is_Some k ps Hin) as [p Hp]. congruence.
  - intros Hk. destruct (players_get k ps) as [p|] eqn:E; [|done].
    apply players_get_Some in E as [Hin <-]. destruct Hk.
    by apply list_elem_of_fmap_2.
Qed.

Lemma pass_ids (now : Z) (st : Pit) :
  id <$> players (processAllAttacks now st) = id <$> players st.
Proof. by rewrite processAllAttacks_unfold, winner_loop_ids, loser_loop_ids. Qed.

Lemma pass_other (now : Z) (st : Pit) (k : string) :
  let tk := resolve now (players st) (revenge st) in
  k ∉ losers tk → k ∉ winners tk →
  players_get k (players (processAllAttacks now st)) = players_get k (players st).
Proof.
  intros tk Hl Hw. destruct (players_get k (players st)) as [p|] eqn:E.
  - by apply (pass_outcome now st k p E).
  - apply players_get_None. rewrite pass_ids. by apply players_get_None.
Qed.

(** X15. An accepted attack on a pit where nobody has a pending attack is
    resolved at once as one duel: the batch sent holds exactly the verdict of
    [determineWinner] on the attacker, as declared, and the target. The winner
    gets one point (three when the attacker wins holding a live revenge claim
    on the target), one more win in its streak and the right to heckle; the
    loser loses one point, not below zero, its streak, its place in the pit,
    and its clan to the winner's when no point is left; the loser's identity
    gets three minutes to take revenge on the winner's; both are left without
    a pending action and no other session changes. *)
Lemma attack_outcome (now : Z) (socketId targetId : string) (ty : AttackType) (st : Pit)
    (p t : Player) :
  (∀ q, q ∈ players st → action q ≠ Some Attack) →
  players_get socketId (players st) = Some p → inPit p = true →
  players_get targetId (players st) = Some t → inPit t = true →
  targetId ≠ socketId → targetId ≠ "" →
  let a := declare_attack targetId ty now p in
  let r := determineWinner a t in
  let out := onAttack now socketId targetId (Some ty) st in
  verdict <$> battle out.1 = [verdict r] ∧
  out.2 = BattleResults (battleResults out.1) ∧
  (∀ k, k ≠ socketId → k ≠ targetId →
        players_get k (players out.1) = players_get k (players st)) ∧
  ∃ w l bonus,
    ((w = a ∧ l = t ∧ bonus = if holdsRevenge now (revenge st) a t then 2 else 0) ∨
     (w = t ∧ l = a ∧ bonus = 0)) ∧
    winner r = Some (id w) ∧ loser r = Some (id l) ∧
    players_get (id w) (players out.1) = Some (reward bonus w) ∧
    players_get (id l) (players out.1)
      = Some (defeat (Z.max 0 (points l - 1))
                (if Z.max 0 (points l - 1) =? 0 then clanName w else clanName l) l) ∧
    revenge out.1 !! odIdentifier l
      = Some {| revengeOn := odIdentifier w; expiresAt := now + 180000 |}.
Proof.
  intros quiet Hp Hpit Ht Htpit Hne Hnz a r out.
  destruct (players_get_Some _ _ _ Hp) as [_ Hidp].
  destruct (players_get_Some _ _ _ Ht) as [_ Hidt].
  assert (id a = socketId) as Hida by done.
  unfold out. rewrite (onAttack_declared now socketId targetId ty st p t) by done.
  set (st0 := declared now socketId targetId ty st).
  cbn [fst snd].
  assert (players_get socketId (players st0) = Some a) as Hga.
  { unfold st0. rewrite (declared_get now socketId targetId ty st p Hp).
    by rewrite bool_decide_eq_true_2. }
  assert (players_get targetId (players st0) = Some t) as Hgt.
  { unfold st0. rewrite (declared_get now socketId targetId ty st p Hp).
    by rewrite bool_decide_eq_false_2. }
  pose proof (pass_verdicts now st0) as Hv.
  pose proof (duel_tick now socketId targetId ty st p t quiet Hp Hpit Ht Htpit Hne Hnz)
    as Htk.
  cbn zeta in Htk. fold a r st0 in Htk.
  set (tk := resolve now (players st0) (revenge st0)) in *.
  assert (verdict <$> results tk = [verdict r]) as Hres.
  { destruct Htk as [(_ & _ & -> & _)|(_ & _ & -> & _)]; done. }
  rewrite Hres in Hv.
  split; [done|]. split.
  { destruct (battle (processAllAttacks now st0)); [done|done]. }
  split.
  { intros k Hk1 Hk2. unfold st0 at 1.
    rewrite pass_other.
    - fold st0. unfold st0. rewrite (declared_get now socketId targetId ty st p Hp).
      by rewrite bool_decide_eq_false_2.
    - fold st0 tk.
      destruct Htk as [(_ & _ & _ & -> & _)|(_ & _ & _ & -> & _)];
        by intros ?%list_elem_of_singleton.
    - fold st0 tk.
      destruct Htk as [(_ & _ & _ & _ & -> & _)|(_ & _ & _ & _ & -> & _)];
        by intros ?%list_elem_of_singleton. }
  destruct Htk as [(Hw & Hl & Hr & Hlo & Hwi & Hb & Hrv)|(Hw & Hl & Hr & Hlo & Hwi & Hb & Hrv)].
  - exists a, t, (if holdsRevenge now (revenge st) a t then 2 else 0).
    destruct (single_duel_pass now st0 _ socketId targetId a t Hr Hlo Hwi)
      as (Hrev & Hgl & Hgw); try done.
    rewrite Hida, Hidt. fold tk in Hgw. rewrite Hb in Hgw.
    split_and!; try done; [by left|].
    rewrite Hrev. by rewrite lookup_insert_eq.
  - exists t, a, 0.
    destruct (single_duel_pass now st0 _ targetId socketId t a Hr Hlo Hwi)
      as (Hrev & Hgl & Hgw); try done.
    rewrite Hida, Hidt. fold tk in Hgw. rewrite Hb in Hgw.
    split_and!; try done; [by right|].
    rewrite Hrev. by rewrite lookup_insert_eq.
Qed.

Lemma quiet_pit_quiet : ∀ q, q ∈ players quiet_pit → action q ≠ Some Attack.
Proof.
  intros q Hq. apply elem_of_cons in Hq as [->|Hq]; [done|].
  by apply list_elem_of_singleton in Hq as ->.
Qed.

Lemma attack_outcome_witness :
  verdict <$> battle (onAttack 1000 "a" "t" (Some Distance) quiet_pit).1
  = [verdict (determineWinner (declare_attack "t" Distance 1000 (idle "a" "A" 10 50))
                (idle "t" "T" 10 10))].
Proof.
  apply (attack_outcome 1000 "a" "t" Distance quiet_pit
           (idle "a" "A" 10 50) (idle "t" "T" 10 10));
    [exact quiet_pit_quiet|reflexivity|reflexivity|reflexivity|reflexivity|
     discriminate|discriminate].
Defined.



(** X22. After such a duel the pit list sent to the loser flags exactly the
    entries of the winner's identity as revenge targets, and does so until
    three minutes after the duel. *)
Lemma revenge_window (now now' : Z) (socketId targetId : string) (ty : AttackType)
    (st : Pit) (p t : Player) :
  (∀ q, q ∈ players st → action q ≠ Some Attack) →
  players_get socketId (players st) = Some p → inPit p = true →
  players_get targetId (players st) = Some t → inPit t = true →
  targetId ≠ socketId → targetId ≠ "" →
  let st' := (onAttack now socketId targetId (Some ty) st).1 in
  ∀ kw kl w l,
    winner (determineWinner (declare_attack targetId ty now p) t) = Some kw →
    loser (determineWinner (declare_attack targetId ty now p) t) = Some kl →
    players_get kw (players st) = Some w → players_get kl (players st) = Some l →
    ∀ e, e ∈ getPitPlayers now' (revenge st') (players st') kl →
      (pitIsRevenge e = true ↔
       pitOdIdentifier e = odIdentifier w ∧ now' < now + 180000).
Proof.
  intros quiet Hp Hpit Ht Htpit Hne Hnz st' kw kl w l Hkw Hkl Hgw Hgl e He.
  set (a := declare_attack targetId ty now p) in *.
  rewrite (pit_flag _ _ _ _ _ He). clear He.
  assert (∃ l', players_get kl (players st') = Some l' ∧ odIdentifier l' = odIdentifier l ∧
                revenge st' !! odIdentifier l
                = Some {| revengeOn := odIdentifier w; expiresAt := now + 180000 |})
    as (l' & Hl' & Hod & Hrv).
  { unfold st'. rewrite (onAttack_declared now socketId targetId ty st p t) by done.
    set (st0 := declared now socketId targetId ty st). cbn [fst].
    assert (players_get socketId (players st0) = Some a) as Hga.
    { unfold st0. rewrite (declared_get now socketId targetId ty st p Hp).
      by rewrite bool_decide_eq_true_2. }
    assert (players_get targetId (players st0) = Some t) as Hgt.
    { unfold st0. rewrite (declared_get now socketId targetId ty st p Hp).
      by rewrite bool_decide_eq_false_2. }
    pose proof (duel_tick now socketId targetId ty st p t quiet Hp Hpit Ht Htpit Hne Hnz)
      as Htk.
    cbn zeta in Htk. fold a st0 in Htk.
    destruct Htk as [(Hw & Hl & Hr & Hlo & Hwi & _)|(Hw & Hl & Hr & Hlo & Hwi & _)].
    - assert (kw = socketId) as -> by congruence.
      assert (kl = targetId) as -> by congruence.
      assert (w = p) as -> by congruence. assert (l = t) as -> by congruence.
      destruct (single_duel_pass now st0 _ socketId targetId a t Hr Hlo Hwi)
        as (Hrev & Hglo & _); try done.
      eexists. split; [exact Hglo|]. split; [done|].
      rewrite Hrev. by rewrite lookup_insert_eq.
    - assert (kw = targetId) as -> by congruence.
      assert (kl = socketId) as -> by congruence.
      assert (w = t) as -> by congruence. assert (l = p) as -> by congruence.
      destruct (single_duel_pass now st0 _ targetId socketId t a Hr Hlo Hwi)
        as (Hrev & Hglo & _); try done.
      eexists. split; [exact Hglo|]. split; [done|].
      change (odIdentifier p) with (odIdentifier a).
      rewrite Hrev. by rewrite lookup_insert_eq. }
  split.
  - intros (me & r & Hme & Hr & Hexp & Hon).
    assert (me = l') as -> by congruence. rewrite Hod, Hrv in Hr.
    injection Hr as <-. cbn in Hexp, Hon. done.
  - intros [Hon Hexp]. exists l', {| revengeOn := odIdentifier w; expiresAt := now + 180000 |}.
    rewrite Hod. done.
Qed.

Lemma revenge_window_witness :
  Forall (λ e, pitIsRevenge e = true ↔ pitOdIdentifier e = "A" ∧ 2000 < 1000 + 180000)
    (getPitPlayers 2000 (revenge (onAttack 1000 "a" "t" (Some Distance) quiet_pit).1)
       (players (onAttack 1000 "a" "t" (Some Distance) quiet_pit).1) "t").
Proof.
  apply Forall_forall. intros e He.
  refine (revenge_window 1000 2000 "a" "t" Distance quiet_pit
            (idle "a" "A" 10 50) (idle "t" "T" 10 10)
            quiet_pit_quiet eq_refl eq_refl eq_refl eq_refl _ _
            "a" "t" (idle "a" "A" 10 50) (idle "t" "T" 10 10)
            eq_refl eq_refl eq_refl eq_refl e He); discriminate.
Defined.

Lemma single_duel_store (now : Z) (st : Pit) (res : Result) (kw kl : string) (w l : Player) :
  let tk := resolve now (players st) (revenge st) in
  results tk = [res] → losers tk = [kl] → winners tk = [kw] →
  winner res = Some kw → loser res = Some kl → kw ≠ kl →
  players_get kw (players st) = Some w → players_get kl (players st) = Some l →
  let pts := Z.max 0 (points l - 1) in
  let w' := reward (default 0 (winnerBonuses tk !! kw)) w in
  let db1 := updatePlayerPoints (odIdentifier l) pts (store st) in
  let db2 :=
    if pts =? 0
    then (captureCharacter (odIdentifier l) (clanName w) (Some (odIdentifier w)) db1).1
    else db1 in
  store (processAllAttacks now st)
  = updatePlayerPoints (odIdentifier w) (points w')
      (updateDailyChallenge (odIdentifier w) (dailyRevengeKills w') (dailyMaxStreak w') db2).
Proof.
  intros tk Hres Hlo Hwi Hw Hl Hne Hgw Hgl pts w' db1 db2.
  rewrite processAllAttacks_unfold. fold tk. rewrite Hlo, Hwi. cbn [fold_left].
  assert (find (lostBy kl) (battle (resolved now st)) = Some res) as Hfind.
  { unfold resolved. cbn [battle]. fold tk. rewrite Hres. simpl.
    unfold lostBy. by rewrite bool_decide_eq_true_2. }
  set (st1 := loserStep now (resolved now st) kl).
  assert (store st1 = db2 ∧
          players st1
          = players_alter kl
              (defeat pts (if pts =? 0 then clanName w else clanName l)) (players st))
    as [Hdb Hps].
  { unfold st1, loserStep. rewrite Hfind. cbn [players resolved mbind option_bind].
    rewrite Hgl. cbn [mbind option_bind]. rewrite Hw. cbn [mbind option_bind].
    rewrite Hgw. fold pts. unfold db2, db1. destruct (pts =? 0); done. }
  assert (players_get kw (players st1) = Some w) as Hgw1.
  { rewrite Hps, players_get_alter by done. by rewrite bool_decide_eq_false_2. }
  unfold winnerStep. rewrite Hgw1, Hlo.
  rewrite bool_decide_eq_false_2 by (intros ?%list_elem_of_singleton; done).
  cbn [store]. by rewrite Hdb.
Qed.

Lemma stored_points (k : string) (v : Z) (t : list Row) (k' : string) :
  row_points <$> lookup_row k' (update_where k (set_row_points v) t)
  = if bool_decide (k' = k) then (λ _, v) <$> lookup_row k' t
    else row_points <$> lookup_row k' t.
Proof.
  rewrite lookup_row_update by done. case_bool_decide; [|done].
  by destruct (lookup_row k' t).
Qed.

Lemma duel_store (kl kw : string) (pts wpts kills strk : Z) (clan owner : option string)
    (rows : list Row) :
  kl ≠ kw →
  ∃ rows',
    updatePlayerPoints kw wpts
      (updateDailyChallenge kw kills strk
         (if pts =? 0
          then (captureCharacter kl clan owner (updatePlayerPoints kl pts (Some rows))).1
          else updatePlayerPoints kl pts (Some rows)))
    = Some rows' ∧
    od_identifier <$> rows' = od_identifier <$> rows ∧
    row_points <$> lookup_row kl rows' = (λ _, pts) <$> lookup_row kl rows ∧
    row_points <$> lookup_row kw rows' = (λ _, wpts) <$> lookup_row kw rows ∧
    (∀ k, k ≠ kl → k ≠ kw → lookup_row k rows' = lookup_row k rows).
Proof.
  intros Hne. unfold updatePlayerPoints, updateDailyChallenge, captureCharacter.
  destruct (pts =? 0); cbn [fmap option_fmap option_map fst]; eexists; (split; [reflexivity|]).
  - split_and!.
    + by rewrite !update_where_keys by done.
    + rewrite stored_points, bool_decide_eq_false_2 by done.
      rewrite !lookup_row_update by done.
      rewrite bool_decide_eq_false_2, !bool_decide_eq_true_2 by done.
      by destruct (lookup_row kl rows).
    + rewrite stored_points, bool_decide_eq_true_2 by done.
      rewrite !lookup_row_update by done.
      rewrite bool_decide_eq_true_2 by done.
      rewrite !(bool_decide_eq_false_2 (kw = kl)) by done.
      by destruct (lookup_row kw rows).
    + intros k H1 H2. rewrite !lookup_row_update by done.
      by rewrite !bool_decide_eq_false_2 by done.
  - split_and!.
    + by rewrite !update_where_keys by done.
    + rewrite stored_points, bool_decide_eq_false_2 by done.
      rewrite !lookup_row_update by done.
      rewrite bool_decide_eq_false_2, !bool_decide_eq_true_2 by done.
      by destruct (lookup_row kl rows).
    + rewrite stored_points, bool_decide_eq_true_2 by done.
      rewrite !lookup_row_update by done.
      rewrite bool_decide_eq_true_2 by done.
      rewrite !(bool_decide_eq_false_2 (kw = kl)) by done.
      by destruct (lookup_row kw rows).
    + intros k H1 H2. rewrite !lookup_row_update by done.
      by rewrite !bool_decide_eq_false_2 by done.
Qed.

(** X17. After such a duel on a server with a store, the stored points of
    each duellist's identity are the points of its session, the table has the
    same keys and the rows of all other identities are as before (the two
    identities being different). *)
Lemma attack_store (now : Z) (socketId targetId : string) (ty : AttackType) (st : Pit)
    (p t : Player) (rows : list Row) :
  (∀ q, q ∈ players st → action q ≠ Some Attack) →
  players_get socketId (players st) = Some p → inPit p = true →
  players_get targetId (players st) = Some t → inPit t = true →
  targetId ≠ socketId → targetId ≠ "" →
  odIdentifier p ≠ odIdentifier t →
  store st = Some rows →
  let st' := (onAttack now socketId targetId (Some ty) st).1 in
  ∃ rows' p' t',
    store st' = Some rows' ∧
    od_identifier <$> rows' = od_identifier <$> rows ∧
    players_get socketId (players st') = Some p' ∧
    players_get targetId (players st') = Some t' ∧
    row_points <$> lookup_row (odIdentifier p) rows'
      = (λ _, points p') <$> lookup_row (odIdentifier p) rows ∧
    row_points <$> lookup_row (odIdentifier t) rows'
      = (λ _, points t') <$> lookup_row (odIdentifier t) rows ∧
    (∀ k, k ≠ odIdentifier p → k ≠ odIdentifier t →
          lookup_row k rows' = lookup_row k rows).
Proof.
  intros quiet Hp Hpit Ht Htpit Hne Hnz Hod Hrows st'.
  set (a := declare_attack targetId ty now p).
  unfold st'. rewrite (onAttack_declared now socketId targetId ty st p t) by done.
  set (st0 := declared now socketId targetId ty st). cbn [fst].
  assert (players_get socketId (players st0) = Some a) as Hga.
  { unfold st0. rewrite (declared_get now socketId targetId ty st p Hp).
    by rewrite bool_decide_eq_true_2. }
  assert (players_get targetId (players st0) = Some t) as Hgt.
  { unfold st0. rewrite (declared_get now socketId targetId ty st p Hp).
    by rewrite bool_decide_eq_false_2. }
  pose proof (duel_tick now socketId targetId ty st p t quiet Hp Hpit Ht Htpit Hne Hnz)
    as Htk.
  cbn zeta in Htk. fold a st0 in Htk.
  assert (store st0 = Some rows) as Hrows0 by done.
  destruct Htk as [(Hw & Hl & Hr & Hlo & Hwi & Hb & Hrv)|(Hw & Hl & Hr & Hlo & Hwi & Hb & Hrv)].
  - destruct (single_duel_pass now st0 _ socketId targetId a t Hr Hlo Hwi)
      as (_ & Hgl & Hgw); try done.
    pose proof (single_duel_store now st0 _ socketId targetId a t Hr Hlo Hwi) as Hst.
    cbn zeta in Hst. rewrite Hst by done. rewrite Hrows0. clear Hst.
    set (w' := reward _ a) in *.
    destruct (duel_store (odIdentifier t) (odIdentifier a) (Z.max 0 (points t - 1))
                (points w') (dailyRevengeKills w') (dailyMaxStreak w') (clanName a)
                (Some (odIdentifier a)) rows) as (rows' & -> & Hk & Hlr & Hwr & Hor).
    { intros E. by apply Hod. }
    eexists rows', w', _. split; [done|].
    split; [done|]. split; [exact Hgw|]. split; [exact Hgl|].
    split; [exact Hwr|]. split; [exact Hlr|].
    intros k H1 H2. by apply Hor.
  - destruct (single_duel_pass now st0 _ targetId socketId t a Hr Hlo Hwi)
      as (_ & Hgl & Hgw); try done.
    pose proof (single_duel_store now st0 _ targetId socketId t a Hr Hlo Hwi) as Hst.
    cbn zeta in Hst. rewrite Hst by done. rewrite Hrows0. clear Hst.
    set (w' := reward _ t) in *.
    destruct (duel_store (odIdentifier a) (odIdentifier t) (Z.max 0 (points a - 1))
                (points w') (dailyRevengeKills w') (dailyMaxStreak w') (clanName t)
                (Some (odIdentifier t)) rows) as (rows' & -> & Hk & Hlr & Hwr & Hor).
    { exact Hod. }
    eexists rows', _, w'. split; [done|].
    split; [done|]. split; [exact Hgl|]. split; [exact Hgw|].
    split; [exact Hlr|]. split; [exact Hwr|].
    intros k H1 H2. by apply Hor.
Qed.

Lemma attack_store_witness :
  ∃ rows' p' t',
    store (onAttack 1000 "a" "t" (Some Distance) quiet_pit).1 = Some rows' ∧
    od_identifier <$> rows' = ["A"; "T"] ∧
    players_get "a" (players (onAttack 1000 "a" "t" (Some Distance) quiet_pit).1) = Some p' ∧
    players_get "t" (players (onAttack 1000 "a" "t" (Some Distance) quiet_pit).1) = Some t' ∧
    row_points <$> lookup_row "A" rows' = Some (points p') ∧
    row_points <$> lookup_row "T" rows' = Some (points t') ∧
    (∀ k, k ≠ "A" → k ≠ "T" →
          lookup_row k rows'
          = lookup_row k [row "A" "Iron Pack" 10 50; row "T" "War Horde" 10 10]).
Proof.
  apply (attack_store 1000 "a" "t" Distance quiet_pit
           (idle "a" "A" 10 50) (idle "t" "T" 10 10)
           [row "A" "Iron Pack" 10 50; row "T" "War Horde" 10 10]);
    [exact quiet_pit_quiet|reflexivity|reflexivity|reflexivity|reflexivity|
     discriminate|discriminate|discriminate|reflexivity].
Defined.

(** X18. When the [attack] handler answers with an error the state is as it
    was. It always refuses an attack on oneself, an attack from a session that
    is outside the pit, and an attack on a session that is outside the pit. *)
Lemma attack_refusals (now : Z) (k targetId : string) (ty : option AttackType) (st : Pit) :
  (∀ m, (onAttack now k targetId ty st).2 = ErrorMessage m →
        (onAttack now k targetId ty st).1 = st) ∧
  (∃ m, onAttack now k k ty st = (st, ErrorMessage m)) ∧
  (∀ p, players_get k (players st) = Some p → inPit p = false →
        onAttack now k targetId ty st = (st, ErrorMessage "You are not in the pit")) ∧
  (∀ t, players_get targetId (players st) = Some t → inPit t = false →
        ∃ m, onAttack now k targetId ty st = (st, ErrorMessage m)).
Proof.
  split_and!.
  - intros m. unfold onAttack.
    destruct (players_get k (players st)) as [p|]; [|done].
    destruct (inPit p); [|done]. cbn [negb].
    destruct (players_get targetId (players st)) as [t|]; [|done].
    destruct (inPit t); [|done]. cbn [negb].
    case_bool_decide; [done|]. destruct ty as [ty|]; [|done].
    cbn [snd]. by case_match.
  - unfold onAttack.
    destruct (players_get k (players st)) as [p|]; [|by eexists].
    destruct (inPit p); [|by eexists]. cbn [negb].
    rewrite bool_decide_eq_true_2 by done. by eexists.
  - intros p Hp Hpit. unfold onAttack. by rewrite Hp, Hpit.
  - intros t Ht Hpit. unfold onAttack.
    destruct (players_get k (players st)) as [p|]; [|by eexists].
    destruct (inPit p); [|by eexists]. cbn [negb].
    rewrite Ht, Hpit. by eexists.
Qed.

(** ** The invariant of the event loop *)

Lemma elem_of_players_alter (k : string) (f : Player → Player) (ps : list Player)
    (q' : Player) :
  q' ∈ players_alter k f ps → q' ∈ ps ∨ ∃ q, q ∈ ps ∧ id q = k ∧ q' = f q.
Proof.
  unfold players_alter. induction ps as [|q ps IH]; simpl; [by left|].
  case_bool_decide as Hq.
  - intros [->|Hin]%elem_of_cons.
    + right. exists q. split; [left|done].
    + left. by right.
  - intros [->|Hin]%elem_of_cons; [left; left|].
    destruct (IH Hin) as [?|(q0 & ? & ? & ?)]; [left; by right|].
    right. exists q0. split; [by right|done].
Qed.

Lemma calm_alter (k : string) (f : Player → Player) (ps : list Player) :
  (∀ p, id (f p) = id p) →
  (∀ p, p ∈ ps → id p = k → at_rest (f p)) →
  calm ps → calm (players_alter k f ps).
Proof.
  intros Hid Hf (Hnd & Hnz & Hrest). unfold calm.
  rewrite players_alter_ids by done. split_and!; try done.
  intros q' [Hq|(q & Hq & Hk & ->)]%elem_of_players_alter; [by apply Hrest|by apply Hf].
Qed.

Lemma players_set_elem (k : string) (p : Player) (ps : list Player) (q : Player) :
  q ∈ players_set k p ps → q = p ∨ q ∈ ps.
Proof.
  induction ps as [|x ps IH]; simpl.
  - intros ->%list_elem_of_singleton. by left.
  - case_bool_decide.
    + intros [->|?]%elem_of_cons; [by left|right; by right].
    + intros [->|Hin]%elem_of_cons; [right; left|].
      destruct (IH Hin); [by left|right; by right].
Qed.

Lemma players_set_ids (k : string) (p : Player) (ps : list Player) :
  id p = k →
  (∀ x, x ∈ id <$> players_set k p ps ↔ x = k ∨ x ∈ id <$> ps) ∧
  (NoDup (id <$> ps) → NoDup (id <$> players_set k p ps)).
Proof.
  intros Hp. induction ps as [|q ps [IH1 IH2]]; csimpl.
  - split.
    + intros x. rewrite list_elem_of_singleton, Hp. split; [by left|].
      intros [?|H]; [done|by apply elem_of_nil in H].
    + intros _. apply NoDup_singleton.
  - case_bool_decide as Hq; csimpl.
    + split.
      * intros x. rewrite !elem_of_cons, Hp, Hq. tauto.
      * rewrite !NoDup_cons, Hp, Hq. done.
    + split.
      * intros x. rewrite !elem_of_cons, IH1. tauto.
      * rewrite !NoDup_cons, IH1. intros [Hn Hnd]. split; [|by apply IH2].
        intros [?|?]; [congruence|done].
Qed.

Lemma calm_set (k : string) (p : Player) (ps : list Player) :
  id p = k → k ≠ "" → at_rest p → calm ps → calm (players_set k p ps).
Proof.
  intros Hp Hk Hr (Hnd & Hnz & Hrest).
  destruct (players_set_ids k p ps Hp) as [Hin Hnd'].
  split_and!.
  - by apply Hnd'.
  - rewrite Hin. intros [?|?]; [congruence|done].
  - intros q [->|Hq]%players_set_elem; [done|by apply Hrest].
Qed.

Lemma calm_sublist (P : Player → Prop) `{!∀ x, Decision (P x)} (ps : list Player) :
  calm ps → calm (filter P ps).
Proof.
  intros (Hnd & Hnz & Hrest). split_and!.
  - eapply sublist_NoDup; [exact Hnd|]. apply fmap_sublist, sublist_filter.
  - intros (q & Hq & [_ Hin]%list_elem_of_filter)%list_elem_of_fmap.
    apply Hnz. rewrite Hq. by apply list_elem_of_fmap_2.
  - intros q [_ Hq]%list_elem_of_filter. by apply Hrest.
Qed.

Lemma calm_attack (now : Z) (k targetId : string) (ty : option AttackType) (st : Pit) :
  calm (players st) → calm (players (onAttack now k targetId ty st).1).
Proof.
  intros Hcalm. pose proof Hcalm as (Hnd & Hnz & Hrest).
  unfold onAttack.
  destruct (players_get k (players st)) as [p|] eqn:Hp; [|done].
  destruct (inPit p) eqn:Hpit; [|done]. cbn [negb].
  destruct (players_get targetId (players st)) as [t|] eqn:Ht; [|done].
  destruct (inPit t) eqn:Htpit; [|done]. cbn [negb].
  case_bool_decide as Hne; [done|].
  destruct ty as [ty|]; [|done]. cbn [fst].
  fold (declared now k targetId ty st).
  set (st0 := declared now k targetId ty st).
  assert (targetId ≠ "") as Htz.
  { intros ->. apply Hnz. apply players_get_Some in Ht as [Hin <-].
    by apply list_elem_of_fmap_2. }
  assert (∀ q, q ∈ players st → action q ≠ Some Attack) as quiet.
  { intros q Hq. by apply Hrest. }
  pose proof (duel_tick now k targetId ty st p t quiet Hp Hpit Ht Htpit Hne Htz) as Htk.
  cbn zeta in Htk. fold st0 in Htk.
  set (tk := resolve now (players st0) (revenge st0)) in *.
  assert (id <$> players (processAllAttacks now st0) = id <$> players st) as Hids.
  { rewrite pass_ids. unfold st0, declared. cbn [players].
    by rewrite players_alter_ids. }
  split_and!; [by rewrite Hids|by rewrite Hids|].
  intros q Hq.
  assert (players_get (id q) (players (processAllAttacks now st0)) = Some q) as Hgq.
  { apply players_get_elem; [by rewrite Hids|done]. }
  assert (∃ q0, players_get (id q) (players st0) = Some q0) as [q0 Hq0].
  { apply players_get_is_Some. rewrite <- (pass_ids now st0). by apply list_elem_of_fmap_2. }
  destruct (pass_outcome now st0 (id q) q0 Hq0) as (Hlose & Hwin & Hnone).
  fold tk in Hlose, Hwin, Hnone.
  destruct (decide (id q ∈ losers tk)) as [Hl|Hl].
  { destruct (Hlose Hl) as [clan Heq]. rewrite Hgq in Heq. injection Heq as ->. done. }
  destruct (decide (id q ∈ winners tk)) as [Hw|Hw].
  { specialize (Hwin Hl Hw). rewrite Hgq in Hwin. injection Hwin as ->.
    split; [done|]. done. }
  specialize (Hnone Hl Hw). rewrite Hgq in Hnone.
  assert (q0 = q) as -> by congruence.
  assert (id q ≠ k) as Hqk.
  { intros Hqk. rewrite Hqk in Hl, Hw.
    destruct Htk as [(_ & _ & _ & _ & Hwi & _)|(_ & _ & _ & Hlo & _)].
    - apply Hw. rewrite Hwi. left.
    - apply Hl. rewrite Hlo. left. }
  unfold st0 in Hq0. rewrite (declared_get now k targetId ty st p Hp) in Hq0.
  rewrite bool_decide_eq_false_2 in Hq0 by done.
  apply players_get_Some in Hq0 as [Hin _]. by apply Hrest.
Qed.

Lemma step_settled (trim : string → string) (now : Z) (srv : Server) (ev : Event) :
  settled srv → (∀ k, socket_of ev = Some k → k ≠ "") → settled (step trim now srv ev).
Proof.
  intros [Hcalm Hfeed] Hk. pose proof Hcalm as (Hnd & Hnz & Hrest).
  destruct ev as [k pers|k od nm img r|k|k|k|k tgt ty|k msg|k|]; simpl in Hk.
  - split; [|done]. cbn. unfold onIdentify. destruct (isNew pers); [done|].
    apply calm_set; [done|by apply Hk|done|done].
  - split; [|done]. cbn. apply calm_set; [done|by apply Hk|done|done].
  - split; [|done]. cbn. unfold onJoinPit.
    destruct (players_get k (players (pit srv))) as [p|]; [|done].
    destruct (inPit p); [done|]. apply calm_alter; [done| |done]. done.
  - split; [|done]. cbn. unfold onLeavePit.
    destruct (players_get k (players (pit srv))) as [p|]; [|done].
    destruct (inPit p); [|done]. apply calm_alter; [done| |done]. done.
  - split; [|done]. cbn. unfold onDefend.
    destruct (players_get k (players (pit srv))) as [p|] eqn:Hp; [|done].
    destruct (inPit p) eqn:Hpit; [|done]. cbn [andb].
    destruct (bool_decide (is_Some (action p))); [done|]. cbn [negb].
    apply calm_alter; [done| |done].
    intros q Hq Hqk. split; [done|]. cbn. intros Hout.
    assert (players_get k (players (pit srv)) = Some q) as Hgq.
    { rewrite <- Hqk. by apply players_get_elem. }
    congruence.
  - split; [|done]. cbn [step pit]. by apply calm_attack.
  - cbn [step].
    destruct (onHeckle_cases trim now k msg (players (pit srv)) (feed srv))
      as [(ans & _ & ->)|(p & _ & _ & _ & ->)]; unfold settled;
      cbn [pit feed with_players players].
    + done.
    + split; [|rewrite length_take; lia].
      apply calm_alter; [done| |done]. intros q Hq _. exact (Hrest q Hq).
  - split; [|done]. cbn. by apply calm_sublist.
  - split; [|done]. cbn. split_and!.
    + rewrite <- list_fmap_compose.
      erewrite list_fmap_ext; [exact Hnd|]. intros _ q _. unfold compose. by destruct (stale now q).
    + rewrite <- list_fmap_compose.
      erewrite list_fmap_ext; [exact Hnz|]. intros _ q _. unfold compose. by destruct (stale now q).
    + intros q' (q & -> & Hq)%list_elem_of_fmap.
      destruct (stale now q); [done|by apply Hrest].
Qed.

(** X19. Whatever events arrive, from sockets with non-empty ids and with
    each handler run to its end before the next: sessions have distinct,
    non-empty keys, no attack is left pending between two events, a session
    outside the pit holds no action, and the feed never holds more than three
    heckles. *)
Lemma run_settled (trim : string → string) (db : option (list Row))
    (evs : list (Z * Event)) :
  (∀ e k, e ∈ evs → socket_of e.2 = Some k → k ≠ "") →
  settled (run trim evs (boot db)).
Proof.
  intros Hk. unfold run.
  assert (settled (boot db)) as H.
  { split; [|cbn; lia]. split_and!; cbn.
    - apply NoDup_nil_2.
    - apply not_elem_of_nil.
    - intros p Hp. by apply elem_of_nil in Hp. }
  revert H. generalize (boot db). induction evs as [|e evs IH]; intros srv H; simpl; [done|].
  apply IH.
  - intros e' k He'. apply Hk. by right.
  - apply step_settled; [done|]. intros k. apply Hk. left.
Qed.

Lemma run_settled_witness :
  settled (run (λ s, s) sample_events (boot None)).
Proof.
  apply (run_settled (λ s, s) None sample_events).
  intros e k He.
  repeat (apply elem_of_cons in He as [->|He]; [intros [= <-]; discriminate|]).
  by apply elem_of_nil in He.
Defined.

(** ** Clan battles: pairing and captures *)

Lemma omap_one {A B} (f : A → option B) (a : A) (b : B) :
  f a = Some b → omap f [a] = [b].
Proof. intros H. cbn. by rewrite H. Qed.

Lemma round_sides (d : Draw) (la lb : list Member) (n : nat) :
  (n ≤ length la)%nat → (n ≤ length lb)%nat →
  let rs := omap (λ i, fa ← la !! i; fb ← lb !! i;
                       Some (duel (coinFlip (coin d i)) fa fb)) (seq 0 n) in
  fighterA <$> rs = fighter <$> take n la ∧ fighterB <$> rs = fighter <$> take n lb.
Proof.
  induction n as [|n IH]; intros Ha Hb; [done|].
  destruct IH as [IHa IHb]; [lia|lia|].
  destruct (lookup_lt_is_Some_2 la n) as [fa Hfa]; [lia|].
  destruct (lookup_lt_is_Some_2 lb n) as [fb Hfb]; [lia|].
  rewrite seq_S, omap_app. cbn [Nat.add].
  rewrite (omap_one _ n (duel (coinFlip (coin d n)) fa fb)) by (by rewrite Hfa, Hfb).
  rewrite (take_S_r la n fa), (take_S_r lb n fb) by done.
  rewrite !fmap_app, IHa, IHb. done.
Qed.

(** X20. In a clan round every member fights at most once: the fighters of
    side A together with the unbattled of A are the roster of A, likewise for
    B, and one of the two sides has nobody left unbattled. Each duel goes to
    the fighter of A when its number is at least (distance) or at most (melee)
    that of the fighter of B, ties included, and to the fighter of B
    otherwise. *)
Lemma round_pairing (d : Draw) (clanAMembers clanBMembers : list Member) :
  shuffles d →
  let rd := executeClanBattleRound d clanAMembers clanBMembers in
  (fighterA <$> roundResults rd) ++ (fighter <$> unbattledA rd) ≡ₚ fighter <$> clanAMembers ∧
  (fighterB <$> roundResults rd) ++ (fighter <$> unbattledB rd) ≡ₚ fighter <$> clanBMembers ∧
  (unbattledA rd = [] ∨ unbattledB rd = []) ∧
  ∀ r, r ∈ roundResults rd →
    if match duelAttackType r with
       | Distance => number (fighterA r) >=? number (fighterB r)
       | Melee => number (fighterA r) <=? number (fighterB r)
       end
    then briefId (duelWinner r) = fighterId (fighterA r) ∧
         briefId (duelLoser r) = fighterId (fighterB r)
    else briefId (duelWinner r) = fighterId (fighterB r) ∧
         briefId (duelLoser r) = fighterId (fighterA r).
Proof.
  intros [HA HB] rd.
  pose proof (Permutation_length (HA clanAMembers)) as Hla.
  pose proof (Permutation_length (HB clanBMembers)) as Hlb.
  destruct (round_sides d (shuffleA d clanAMembers) (shuffleB d clanBMembers)
              (length clanAMembers `min` length clanBMembers)) as [Hfa Hfb]; [lia|lia|].
  unfold rd, executeClanBattleRound. cbn [roundResults unbattledA unbattledB].
  split_and!.
  - rewrite Hfa, <- fmap_app, take_drop. by rewrite HA.
  - rewrite Hfb, <- fmap_app, take_drop. by rewrite HB.
  - destruct (decide (length clanAMembers ≤ length clanBMembers)%nat).
    + left. apply drop_ge. lia.
    + right. apply drop_ge. lia.
  - intros r (i & _ & Hi)%list_elem_of_omap.
    destruct (shuffleA d clanAMembers !! i) as [fa|]; [|done].
    destruct (shuffleB d clanBMembers !! i) as [fb|]; [|done].
    cbn in Hi. injection Hi as <-. unfold duel. cbn.
    destruct (coinFlip (coin d i)); by case_match.
Qed.

Lemma shuffles_sample : shuffles sample_draw.
Proof. split; intros l; [reflexivity|apply reverse_Permutation]. Qed.

Lemma round_pairing_witness :
  (fighterA <$> roundResults (executeClanBattleRound sample_draw roster4 roster3)) ++
  (fighter <$> unbattledA (executeClanBattleRound sample_draw roster4 roster3))
  ≡ₚ fighter <$> roster4.
Proof.
  apply (round_pairing sample_draw roster4 roster3). exact shuffles_sample.
Defined.



Lemma omap_ext_in {A B} (f g : A → option B) (l : list A) :
  (∀ x, x ∈ l → f x = g x) → omap f l = omap g l.
Proof.
  induction l as [|x l IH]; intros H; [done|]. cbn.
  rewrite (H x) by left. rewrite IH; [done|]. intros y Hy. apply H. by right.
Qed.







(** ** A clan battle against an empty roster *)

Lemma empty_round (d : Draw) (clanAMembers clanBMembers : list Member) :
  clanAMembers = [] ∨ clanBMembers = [] →
  roundResults (executeClanBattleRound d clanAMembers clanBMembers) = [].
Proof.
  intros H. unfold executeClanBattleRound. cbn [roundResults].
  assert (length clanAMembers `min` length clanBMembers = 0)%nat as ->; [|done].
  destruct H as [-> | ->]; simpl; lia.
Qed.

(** X23. A clan battle in which one roster is empty plays its three rounds
    without a duel: every round is a tie, no points change, the store is left
    as it was, nobody is captured, and the challenger is declared the winner
    with a score of 0 to 0. *)
Lemma empty_roster_battle (challenger defender : string)
    (clanACreator clanBCreator : option string) (draws : nat → Draw)
    (clanAMembers clanBMembers : list Member) (db : option (list Row)) :
  clanAMembers = [] ∨ clanBMembers = [] →
  let s := runSeries challenger defender draws clanAMembers clanBMembers in
  let out := startClanBattle challenger defender clanACreator clanBCreator draws
               clanAMembers clanBMembers db in
  length (sent s) = 3%nat ∧
  Forall (λ e, eventResults e = [] ∧ roundWinner e = "TIE" ∧ overallScore e = (0, 0)%nat)
    (sent s) ∧
  pointChanges s = [] ∧
  out.1 = db ∧ winnerClan out.2 = challenger ∧ finalScore out.2 = (0, 0)%nat ∧
  totalCaptures out.2 = [].
Proof.
  intros H s out.
  assert (s = {| clanAWins := 0; clanBWins := 0; pointChanges := [];
                 sent := (λ n, {| round := n; eventResults := []; roundWinner := "TIE";
                                  roundScore := (0, 0)%nat;
                                  overallScore := (0, 0)%nat |}) <$> [1; 2; 3]%nat |})
    as Hs.
  { unfold s, runSeries, maxRounds. cbn [seq].
    rewrite !seriesLoop_cons. unfold playRound.
    rewrite !(empty_round _ _ _ H). reflexivity. }
  unfold out, startClanBattle. fold s. rewrite Hs. cbn.
  split; [done|]. split; [by repeat constructor|]. split; [done|].
  split; [by destruct db|]. done.
Qed.

Lemma empty_roster_battle_witness :
  length (sent (runSeries "Iron Pack" "War Horde" (λ _, sample_draw) roster4 [])) = 3%nat.
Proof.
  apply (empty_roster_battle "Iron Pack" "War Horde" None None (λ _, sample_draw)
           roster4 [] None).
  right. reflexivity.
Defined.
